(** * keycloak-lib: a shallow embedding of the OIDC relying-party core

    The development follows the TypeScript sources of the library, part by
    part as their banner comments name them:
    - PKCE ([generateCodeVerifier], [base64UrlEncode]),
    - JWT ([decodeToken], [extractUser], [isTokenExpired]),
    - OIDC Discovery ([getRealmUrl], [discoverEndpoints] and its cache),
    - Token ([exchangeCodeForTokens], [refreshAccessToken]),
    - Cookies ([setTokenCookies], [getTokenCookies], [getPKCECookies], ...),
    - Session ([getSession], [buildSession]),
    - Callback Route Handler ([createCallbackHandler]),
    - Login, Logout and Session Route Handlers and their factory
      ([createLoginHandler], [createLogoutHandler], [createSessionHandler],
      [createAuthHandlers]),
    - the role tests of KeycloakProvider ([hasRole], [hasRealmRole],
      [hasClientRole]).

    How the JavaScript is read:
    - Numbers that hold epoch seconds, millisecond clocks, HTTP statuses and
      lifetimes are integers ([Z]); [NaN], which [parseInt] can return, is a
      separate value.
    - [string | null] is [option string]; a value read from a parsed JSON
      document is [option json], with [None] for [undefined].
    - An asynchronous function runs to completion before the next one
      starts: a computation is a function from the world (cookie store,
      discovery cache, clock, log of the requests sent, console) to a result
      or a thrown error, and the next world.  The clock moves only while a
      request is in flight.
    - The network, [decodeJwt] of jose, [new URL] and the unchecked reading
      of a token response at its declared type are parameters, gathered in
      the record [Platform]. *)

From Stdlib Require Import ZArith Lia.
From Stdlib.Strings Require Import Ascii Byte.
From stdpp Require Import gmap strings list fin_maps pretty.

Set Warnings "-register-all".

Open Scope Z_scope.

(** ** Thrown errors and results *)

Record JsError := mkError { err_name : string; err_message : string }.

Inductive Result (A : Type) : Type :=
| Ok (a : A)
| Throw (e : JsError).
Arguments Ok {A} a.
Arguments Throw {A} e.

(** ** Truthiness of the values the sources test with [if], [!], [&&] *)

(** A [string | null]: truthy when present and not empty. *)
Definition truthy_str (s : option string) : bool :=
  match s with
  | Some (String _ _) => true
  | _ => false
  end.

(** a ?? b *)
Definition nullish {A : Type} (a : option A) (b : A) : A :=
  match a with Some x => x | None => b end.

(** ** PKCE: src/oidc/pkce.ts *)

Module Pkce.

(** The base64 alphabet of [btoa]. *)
Definition alphabet : string :=
  "ABCDEFGHIJKLMNOPQRSTUVWXYZabcdefghijklmnopqrstuvwxyz0123456789+/".

Definition sextet_char (n : N) : ascii :=
  nullish (String.get (N.to_nat (N.land n 63)) alphabet) "A"%char.

(** The four sextets of a 24-bit group, most significant first. *)
Definition group24 (a b c : ascii) : N :=
  (N.shiftl (N_of_ascii a) 16 + N.shiftl (N_of_ascii b) 8 + N_of_ascii c)%N.

Definition sextet (k : N) (g : N) : ascii :=
  sextet_char (N.shiftr g (6 * k)).

(** [btoa(binary)]: every character of a Rocq string has a code below 256,
    so the InvalidCharacterError case of [btoa] cannot arise. *)
Fixpoint btoa (binary : string) : string :=
  match binary with
  | EmptyString => ""
  | String a EmptyString =>
      let g := group24 a zero zero in
      String (sextet 3 g) (String (sextet 2 g) "==")
  | String a (String b EmptyString) =>
      let g := group24 a b zero in
      String (sextet 3 g) (String (sextet 2 g) (String (sextet 1 g) "="))
  | String a (String b (String c rest)) =>
      let g := group24 a b c in
      String (sextet 3 g) (String (sextet 2 g)
        (String (sextet 1 g) (String (sextet 0 g) (btoa rest))))
  end.

(** [s.replace(/x/g, y)] for a single character [x]. *)
Fixpoint replace_all (x y : ascii) (s : string) : string :=
  match s with
  | EmptyString => EmptyString
  | String a r => String (if Ascii.eqb a x then y else a) (replace_all x y r)
  end.

(** [s.replace(/x+$/, '')]: drop the run of [x] that ends the string. *)
Fixpoint strip_trailing (x : ascii) (s : string) : string :=
  match s with
  | EmptyString => EmptyString
  | String a r =>
      match strip_trailing x r with
      | EmptyString => if Ascii.eqb a x then EmptyString else String a EmptyString
      | r' => String a r'
      end
  end.

(** The loop [binary += String.fromCharCode(buffer[i])]. *)
Definition binary_of (buffer : list byte) : string :=
  fold_left (fun binary b => binary +:+ String (ascii_of_byte b) "") buffer "".

Definition base64UrlEncode (buffer : list byte) : string :=
  strip_trailing "=" (replace_all "/" "_" (replace_all "+" "-" (btoa (binary_of buffer)))).

(** [crypto.getRandomValues] fills the array it is given; the random source
    is the function [rng] from positions to bytes.  Requests for more than
    65536 bytes are refused by the platform with a QuotaExceededError. *)
Definition getRandomValues (rng : nat -> byte) (len : nat) : Result (list byte) :=
  if (65536 <? N.of_nat len)%N
  then Throw (mkError "QuotaExceededError" "The requested length exceeds 65,536 bytes")
  else Ok (map rng (seq 0 len)).

(** [generateCodeVerifier(length = 64)] *)
Definition generateCodeVerifier (rng : nat -> byte) (length : option nat) : Result string :=
  match getRandomValues rng (nullish length 64%nat) with
  | Ok array => Ok (base64UrlEncode array)
  | Throw e => Throw e
  end.

(** [generateState()] *)
Definition generateState (rng : nat -> byte) : Result string :=
  match getRandomValues rng 32%nat with
  | Ok array => Ok (base64UrlEncode array)
  | Throw e => Throw e
  end.

End Pkce.

(** ** Values *)

(** A parsed JSON document.  Numbers are the integers ([expires_in],
    timestamps); an object is a finite map, so the order of its keys is not
    kept. *)
Inductive json :=
| JNull
| JBool (b : bool)
| JNum (n : Z)
| JStr (s : string)
| JArr (items : list json)
| JObj (fields : gmap string json).

(** A JavaScript value read from a document: [None] is [undefined]. *)
Abbreviation jsval := (option json).

Definition truthy (v : jsval) : bool :=
  match v with
  | None | Some JNull => false
  | Some (JBool b) => b
  | Some (JNum n) => negb (n =? 0)
  | Some (JStr s) => truthy_str (Some s)
  | Some (JArr _) | Some (JObj _) => true
  end.

(** [v.k] for a value that came out of [JSON.parse]: reading a property of
    [null] throws, an object answers with its own field, and the other
    values have no property of the names read in this library. *)
Definition read_prop (v : json) (k : string) : Result jsval :=
  match v with
  | JNull => Throw (mkError "TypeError" ("Cannot read properties of null (reading '" +:+ k +:+ "')"))
  | JObj fields => Ok (fields !! k)
  | _ => Ok None
  end.

(** A number that may be [NaN]. *)
Inductive jsnum :=
| NaN
| Int (z : Z).

Definition truthy_num (n : jsnum) : bool :=
  match n with
  | NaN => false
  | Int z => negb (z =? 0)
  end.

(** [parseInt(s, 10)]: leading white space, an optional sign, then the
    longest run of decimal digits; [NaN] when there is no digit. *)
Fixpoint skip_space (s : string) : string :=
  match s with
  | String c r => if Ascii.is_space c then skip_space r else s
  | EmptyString => EmptyString
  end.

Fixpoint digits (acc : Z) (s : string) : Z :=
  match s with
  | String c r =>
      match Ascii.is_nat c with
      | Some d => digits (10 * acc + Z.of_nat d) r
      | None => acc
      end
  | EmptyString => acc
  end.

Definition starts_with_digit (s : string) : bool :=
  match s with
  | String c _ => bool_decide (is_Some (Ascii.is_nat c))
  | EmptyString => false
  end.

Definition parseInt (s : string) : jsnum :=
  let s := skip_space s in
  let '(sign, s) :=
    match s with
    | String "-" r => (-1, r)
    | String "+" r => (1, r)
    | _ => (1, s)
    end in
  if starts_with_digit s then Int (sign * digits 0 s) else NaN.

(** ** Types: src/types.ts *)

Record KeycloakConfig := {
  url : string;
  realm : string;
  clientId : string;
  clientSecret : option string;
  scopes : option (list string);
  redirectUri : option string;
  postLogoutRedirectUri : option string;
  authBasePath : option string;
  cookieName : option string;
  refreshMarginSeconds : option Z;
}.

Record KeycloakUser := {
  sub : jsval;
  name : jsval;
  given_name : jsval;
  family_name : jsval;
  preferred_username : jsval;
  email : jsval;
  email_verified : jsval;
  roles : list json;
  realm_roles : json;
  client_roles : json;
  raw_claims : gmap string json;
}.

Record TokenResponse := {
  tr_access_token : string;
  tr_refresh_token : string;
  tr_id_token : string;
  tr_token_type : string;
  tr_expires_in : Z;
  tr_refresh_expires_in : Z;
  tr_scope : string;
  tr_session_state : option string;
}.

Record KeycloakTokens := {
  access_token : string;
  refresh_token : string;
  id_token : string;
  token_type : string;
  expires_in : Z;
  refresh_expires_in : Z;
  access_token_expires_at : Z;
  refresh_token_expires_at : Z;
}.

Record KeycloakSession := {
  user : KeycloakUser;
  accessToken : string;
  idToken : string;
  accessTokenExpiresAt : jsnum;
  refreshTokenExpiresAt : jsnum;
}.

(** The fields are what the discovery document held: the source copies them
    without a check of their type. *)
Record OIDCEndpoints := {
  authorization_endpoint : jsval;
  token_endpoint : jsval;
  userinfo_endpoint : jsval;
  end_session_endpoint : jsval;
  jwks_uri : jsval;
  introspection_endpoint : jsval;
  issuer : jsval;
}.

(** ** The world the library runs in *)

(** A cookie of the store of [next/headers]: a cookie that arrived with the
    request has only a value, a cookie written by [set] has attributes. *)
Record CookieAttrs := {
  httpOnly : bool;
  secure : bool;
  sameSite : string;
  path : string;
  domain : option string;
  maxAge : Z;
}.

Record Cookie := { c_value : string; c_attrs : option CookieAttrs }.

Record CacheEntry := { ce_endpoints : OIDCEndpoints; ce_expiresAt : Z }.

(** What [fetch] was called with.  The body of a POST is the list of the
    URLSearchParams pairs (its serialisation is not modelled). *)
Record RequestInit := {
  ri_method : string;
  ri_headers : list (string * string);
  ri_body : list (string * string);
}.

Record FetchRequest := { fr_input : jsval; fr_init : option RequestInit }.

Record Response := {
  status : Z;
  statusText : string;
  body_text : string;          (* response.text() *)
  body_json : option json;     (* response.json(); None when the body is not JSON *)
}.

(** What the network answers: a rejected promise or a response, after some
    milliseconds. *)
Inductive FetchReply :=
| Rejected (e : JsError)
| Replied (r : Response).

Record FetchOutcome := { elapsed : N; reply : FetchReply }.

(** A parsed URL: the address without its query, and the query pairs. *)
Record Url := { href : string; query : list (string * string) }.

Record World := {
  cookieStore : gmap string Cookie;      (* cookies() *)
  cache : gmap string CacheEntry;        (* the Map of discovery.ts *)
  clock : Z;                             (* Date.now(), milliseconds *)
  netlog : list FetchRequest;            (* requests sent so far, oldest first *)
  console : list (string * JsError);     (* console.error *)
  NODE_ENV : option string;              (* process.env.NODE_ENV *)
}.

(** What the library takes from its platform and its dependencies:
    - the network behind [fetch], which may answer by what was asked so far;
    - [decodeJwt] of the jose package, which throws on a malformed token;
    - the reading of a parsed body at the declared type [TokenResponse]
      (the source casts without a check);
    - [new URL(input, base)], which throws on an invalid address. *)
Record Platform := {
  network : list FetchRequest -> FetchRequest -> FetchOutcome;
  decodeJwt : string -> Result (gmap string json);
  asTokenResponse : json -> TokenResponse;
  newURL : string -> string -> Result Url;
}.

(** ** Computations *)

Definition M (A : Type) : Type := World -> Result A * World.

#[export] Instance M_ret : MRet M := fun A a w => (Ok a, w).

#[export] Instance M_bind : MBind M := fun A B f m w =>
  match m w with
  | (Ok a, w') => f a w'
  | (Throw e, w') => (Throw e, w')
  end.

Definition throw {A : Type} (e : JsError) : M A := fun w => (Throw e, w).

Definition lift {A : Type} (r : Result A) : M A := fun w => (r, w).

(** try { m } catch (err) { h err } *)
Definition try_catch {A : Type} (m : M A) (h : JsError -> M A) : M A := fun w =>
  match m w with
  | (Ok a, w') => (Ok a, w')
  | (Throw e, w') => h e w'
  end.

#[export] Instance Result_ret : MRet Result := fun A a => Ok a.

#[export] Instance Result_bind : MBind Result := fun A B f r =>
  match r with
  | Ok a => f a
  | Throw e => Throw e
  end.

Definition Error (message : string) : JsError := mkError "Error" message.

Definition set_cookieStore (f : gmap string Cookie -> gmap string Cookie) (w : World) : World :=
  {| cookieStore := f (cookieStore w); cache := cache w; clock := clock w;
     netlog := netlog w; console := console w; NODE_ENV := NODE_ENV w |}.

Definition set_cache (f : gmap string CacheEntry -> gmap string CacheEntry) (w : World) : World :=
  {| cookieStore := cookieStore w; cache := f (cache w); clock := clock w;
     netlog := netlog w; console := console w; NODE_ENV := NODE_ENV w |}.

Definition sent (req : FetchRequest) (ms : N) (w : World) : World :=
  {| cookieStore := cookieStore w; cache := cache w; clock := clock w + Z.of_N ms;
     netlog := netlog w ++ [req]; console := console w; NODE_ENV := NODE_ENV w |}.

Definition logged (line : string * JsError) (w : World) : World :=
  {| cookieStore := cookieStore w; cache := cache w; clock := clock w;
     netlog := netlog w; console := console w ++ [line]; NODE_ENV := NODE_ENV w |}.

(** Date.now() *)
Definition Date_now : M Z := fun w => (Ok (clock w), w).

(** console.error(label, err) *)
Definition console_error (label : string) (err : JsError) : M unit :=
  fun w => (Ok tt, logged (label, err) w).

(** response.ok *)
Definition ok (r : Response) : bool := (200 <=? status r) && (status r <=? 299).

(** await response.json() *)
Definition response_json (r : Response) : Result json :=
  match body_json r with
  | Some j => Ok j
  | None => Throw (mkError "SyntaxError" "Unexpected token in JSON")
  end.

Section Program.

Context (P : Platform).

(** await fetch(input, init) *)
Definition fetch (input : jsval) (init : option RequestInit) : M Response := fun w =>
  let req := {| fr_input := input; fr_init := init |} in
  let out := network P (netlog w) req in
  match reply out with
  | Rejected e => (Throw e, sent req (elapsed out) w)
  | Replied r => (Ok r, sent req (elapsed out) w)
  end.

(** ** Cookies: src/session/cookies.ts *)

Definition DEFAULT_COOKIE_PREFIX : string := "kc".

Record CookieNames := {
  n_accessToken : string;
  n_refreshToken : string;
  n_idToken : string;
  n_expiresAt : string;
  n_refreshExpiresAt : string;
  n_codeVerifier : string;
  n_state : string;
  n_returnTo : string;
}.

Definition getCookieNames (prefix : string) : CookieNames :=
  {| n_accessToken := prefix +:+ "_at";
     n_refreshToken := prefix +:+ "_rt";
     n_idToken := prefix +:+ "_id";
     n_expiresAt := prefix +:+ "_exp";
     n_refreshExpiresAt := prefix +:+ "_rexp";
     n_codeVerifier := prefix +:+ "_cv";
     n_state := prefix +:+ "_state";
     n_returnTo := prefix +:+ "_return" |}.

(** cookieStore.get(name)?.value ?? null *)
Definition cookie_get (name : string) : M (option string) :=
  fun w => (Ok (c_value <$> cookieStore w !! name), w).

(** cookieStore.set(name, value, options), in a route handler, where the
    store can be written. *)
Definition cookie_set (name value : string) (options : CookieAttrs) : M unit :=
  fun w => (Ok tt, set_cookieStore (insert name {| c_value := value; c_attrs := Some options |}) w).

(** cookieStore.delete({ name, ... }) *)
Definition cookie_delete (name : string) : M unit :=
  fun w => (Ok tt, set_cookieStore (delete name) w).

Definition is_production : M bool :=
  fun w => (Ok (bool_decide (NODE_ENV w = Some "production")), w).

Definition setTokenCookies (tokens : KeycloakTokens) (prefix : option string) : M unit :=
  let prefix := nullish prefix DEFAULT_COOKIE_PREFIX in
  let names := getCookieNames prefix in
  production ← is_production;
  let baseOptions (http : bool) (age : Z) :=
    {| httpOnly := http; secure := production; sameSite := "lax"; path := "/";
       domain := None; maxAge := age |} in
  cookie_set (n_accessToken names) (access_token tokens) (baseOptions true (expires_in tokens));;
  cookie_set (n_refreshToken names) (refresh_token tokens)
    (baseOptions true (refresh_expires_in tokens));;
  cookie_set (n_idToken names) (id_token tokens) (baseOptions true (expires_in tokens));;
  cookie_set (n_expiresAt names) (pretty (access_token_expires_at tokens))
    (baseOptions false (refresh_expires_in tokens));;
  cookie_set (n_refreshExpiresAt names) (pretty (refresh_token_expires_at tokens))
    (baseOptions false (refresh_expires_in tokens)).

Record TokenCookies := {
  tc_accessToken : option string;
  tc_refreshToken : option string;
  tc_idToken : option string;
  tc_expiresAt : option jsnum;
  tc_refreshExpiresAt : option jsnum;
}.

(** [str ? parseInt(str, 10) : null] *)
Definition parse_expiry (str : option string) : option jsnum :=
  if truthy_str str then parseInt <$> str else None.

Definition getTokenCookies (prefix : string) : M TokenCookies :=
  let names := getCookieNames prefix in
  accessToken ← cookie_get (n_accessToken names);
  refreshToken ← cookie_get (n_refreshToken names);
  idToken ← cookie_get (n_idToken names);
  expiresAtStr ← cookie_get (n_expiresAt names);
  refreshExpiresAtStr ← cookie_get (n_refreshExpiresAt names);
  mret {| tc_accessToken := accessToken;
          tc_refreshToken := refreshToken;
          tc_idToken := idToken;
          tc_expiresAt := parse_expiry expiresAtStr;
          tc_refreshExpiresAt := parse_expiry refreshExpiresAtStr |}.

Definition clearTokenCookies (prefix : string) : M unit :=
  let names := getCookieNames prefix in
  cookie_delete (n_accessToken names);;
  cookie_delete (n_refreshToken names);;
  cookie_delete (n_idToken names);;
  cookie_delete (n_expiresAt names);;
  cookie_delete (n_refreshExpiresAt names).

Definition setPKCECookies (codeVerifier state returnTo prefix : string) : M unit :=
  let names := getCookieNames prefix in
  production ← is_production;
  let baseOptions (http : bool) :=
    {| httpOnly := http; secure := production; sameSite := "lax"; path := "/";
       domain := None; maxAge := 300 |} in
  cookie_set (n_codeVerifier names) codeVerifier (baseOptions true);;
  cookie_set (n_state names) state (baseOptions true);;
  cookie_set (n_returnTo names) returnTo (baseOptions false).

Record PKCECookies := {
  pk_codeVerifier : option string;
  pk_state : option string;
  pk_returnTo : option string;
}.

Definition getPKCECookies (prefix : string) : M PKCECookies :=
  let names := getCookieNames prefix in
  codeVerifier ← cookie_get (n_codeVerifier names);
  state ← cookie_get (n_state names);
  returnTo ← cookie_get (n_returnTo names);
  mret {| pk_codeVerifier := codeVerifier; pk_state := state; pk_returnTo := returnTo |}.

Definition clearPKCECookies (prefix : string) : M unit :=
  let names := getCookieNames prefix in
  cookie_delete (n_codeVerifier names);;
  cookie_delete (n_state names);;
  cookie_delete (n_returnTo names).

(** ** Discovery: src/oidc/discovery.ts *)

Definition CACHE_TTL_MS : Z := 5 * 60 * 1000.

(** url.endsWith('/') *)
Fixpoint endsWith_slash (s : string) : bool :=
  match s with
  | EmptyString => false
  | String c EmptyString => Ascii.eqb c "/"
  | String _ r => endsWith_slash r
  end.

(** url.slice(0, -1) *)
Fixpoint slice_0_m1 (s : string) : string :=
  match s with
  | EmptyString => EmptyString
  | String _ EmptyString => EmptyString
  | String c r => String c (slice_0_m1 r)
  end.

Definition getRealmUrl (url realm : string) : string :=
  let base := if endsWith_slash url then slice_0_m1 url else url in
  base +:+ "/realms/" +:+ realm.

Definition requiredFields : list (string * (OIDCEndpoints -> jsval)) :=
  [ ("authorization_endpoint", authorization_endpoint);
    ("token_endpoint", token_endpoint);
    ("end_session_endpoint", end_session_endpoint);
    ("jwks_uri", jwks_uri);
    ("issuer", issuer) ].

(** The loop over [requiredFields]: the first field that is not truthy
    throws. *)
Fixpoint check_required (fields : list (string * (OIDCEndpoints -> jsval)))
    (endpoints : OIDCEndpoints) (wellKnownUrl : string) : Result unit :=
  match fields with
  | [] => Ok tt
  | (field, get) :: rest =>
      if negb (truthy (get endpoints))
      then Throw (Error ("Missing required OIDC endpoint '" +:+ field +:+
                         "' in discovery document from " +:+ wellKnownUrl))
      else check_required rest endpoints wellKnownUrl
  end.

Definition cache_get (key : string) : M (option CacheEntry) :=
  fun w => (Ok (cache w !! key), w).

Definition cache_set (key : string) (entry : CacheEntry) : M unit :=
  fun w => (Ok tt, set_cache (insert key entry) w).

(** [discoverEndpoints] from the test of [response.ok] to the end of the
    loop over [requiredFields]: no effect happens in between. *)
Definition read_discovery (wellKnownUrl : string) (response : Response) : Result OIDCEndpoints :=
  if negb (ok response)
  then Throw (Error ("Failed to discover OIDC endpoints from " +:+ wellKnownUrl +:+ ": " +:+
                     pretty (status response) +:+ " " +:+ statusText response))
  else
    config ← response_json response;
    f1 ← read_prop config "authorization_endpoint";
    f2 ← read_prop config "token_endpoint";
    f3 ← read_prop config "userinfo_endpoint";
    f4 ← read_prop config "end_session_endpoint";
    f5 ← read_prop config "jwks_uri";
    f6 ← read_prop config "introspection_endpoint";
    f7 ← read_prop config "issuer";
    let endpoints :=
      {| authorization_endpoint := f1; token_endpoint := f2; userinfo_endpoint := f3;
         end_session_endpoint := f4; jwks_uri := f5; introspection_endpoint := f6;
         issuer := f7 |} in
    check_required requiredFields endpoints wellKnownUrl;;
    mret endpoints.

(** The part of [discoverEndpoints] after a cache miss. *)
Definition discover_fetch (url realm cacheKey : string) : M OIDCEndpoints :=
  let realmUrl := getRealmUrl url realm in
  let wellKnownUrl := realmUrl +:+ "/.well-known/openid-configuration" in
  response ← fetch (Some (JStr wellKnownUrl)) None;
  endpoints ← lift (read_discovery wellKnownUrl response);
  now ← Date_now;
  cache_set cacheKey {| ce_endpoints := endpoints; ce_expiresAt := now + CACHE_TTL_MS |};;
  mret endpoints.

Definition discoverEndpoints (url realm : string) : M OIDCEndpoints :=
  let cacheKey := url +:+ ":" +:+ realm in
  cached ← cache_get cacheKey;
  match cached with
  | Some entry =>
      now ← Date_now;
      if now <? ce_expiresAt entry
      then mret (ce_endpoints entry)
      else discover_fetch url realm cacheKey
  | None => discover_fetch url realm cacheKey
  end.

Definition clearDiscoveryCache : M unit :=
  fun w => (Ok tt, set_cache (fun _ => ∅) w).

(** ** Token endpoint: src/oidc/token.ts *)

(** URLSearchParams.set *)
Fixpoint params_set (k v : string) (ps : list (string * string)) : list (string * string) :=
  match ps with
  | [] => [(k, v)]
  | (k', v') :: rest =>
      if String.eqb k' k
      then (k, v) :: filter (fun p => p.1 ≠ k) rest
      else (k', v') :: params_set k v rest
  end.

Definition with_secret (config : KeycloakConfig) (body : list (string * string))
    : list (string * string) :=
  if truthy_str (clientSecret config)
  then params_set "client_secret" (nullish (clientSecret config) "") body
  else body.

Definition post_form (body : list (string * string)) : option RequestInit :=
  Some {| ri_method := "POST";
          ri_headers := [("Content-Type", "application/x-www-form-urlencoded")];
          ri_body := body |}.

Definition normalizeTokenResponse (response : TokenResponse) : M KeycloakTokens :=
  ms ← Date_now;
  let now := ms / 1000 in
  mret {| access_token := tr_access_token response;
          refresh_token := tr_refresh_token response;
          id_token := tr_id_token response;
          token_type := tr_token_type response;
          expires_in := tr_expires_in response;
          refresh_expires_in := tr_refresh_expires_in response;
          access_token_expires_at := now + tr_expires_in response;
          refresh_token_expires_at := now + tr_refresh_expires_in response |}.

Definition exchangeCodeForTokens (config : KeycloakConfig)
    (code codeVerifier redirectUri : string) : M KeycloakTokens :=
  endpoints ← discoverEndpoints (url config) (realm config);
  let body := with_secret config
    [ ("grant_type", "authorization_code");
      ("client_id", clientId config);
      ("code", code);
      ("redirect_uri", redirectUri);
      ("code_verifier", codeVerifier) ] in
  response ← fetch (token_endpoint endpoints) (post_form body);
  if negb (ok response)
  then throw (Error ("Token exchange failed: " +:+ pretty (status response) +:+ " " +:+
                     statusText response +:+ " — " +:+ body_text response))
  else
    tokenResponse ← lift (response_json response);
    normalizeTokenResponse (asTokenResponse P tokenResponse).

Definition refreshAccessToken (config : KeycloakConfig) (refreshToken : string)
    : M KeycloakTokens :=
  endpoints ← discoverEndpoints (url config) (realm config);
  let body := with_secret config
    [ ("grant_type", "refresh_token");
      ("client_id", clientId config);
      ("refresh_token", refreshToken) ] in
  response ← fetch (token_endpoint endpoints) (post_form body);
  if negb (ok response)
  then throw (Error ("Token refresh failed: " +:+ pretty (status response) +:+ " " +:+
                     statusText response +:+ " — " +:+ body_text response))
  else
    tokenResponse ← lift (response_json response);
    normalizeTokenResponse (asTokenResponse P tokenResponse).

(** ** Tokens: src/oidc/jwt.ts *)

Definition decodeToken (token : string) : Result (gmap string json) := decodeJwt P token.

(** A canonical array index: "0", or digits that do not start with 0. *)
Definition array_index (k : string) : option nat :=
  match k with
  | EmptyString => None
  | String "0" EmptyString => Some 0%nat
  | String "0" _ => None
  | _ =>
      if forallb (fun c => bool_decide (is_Some (Ascii.is_nat c))) (String.list_ascii_of_string k)
      then Some (Z.to_nat (digits 0 k))
      else None
  end.

(** [v?.[k]]: [undefined] on [undefined] and [null]; an own field of an
    object; an element or the length of an array or of a string. *)
Definition opt_prop (v : jsval) (k : string) : jsval :=
  match v with
  | Some (JObj fields) => fields !! k
  | Some (JArr items) =>
      if String.eqb k "length" then Some (JNum (Z.of_nat (length items)))
      else i ← array_index k; items !! i
  | Some (JStr s) =>
      if String.eqb k "length" then Some (JNum (Z.of_nat (String.length s)))
      else i ← array_index k; c ← String.get i s; Some (JStr (String c ""))
  | _ => None
  end.

(** [v ?? []] *)
Definition or_empty (v : jsval) : json :=
  match v with
  | None | Some JNull => JArr []
  | Some j => j
  end.

(** [...v]: the elements of an array, the characters of a string; the
    other values are not iterable. *)
Definition iterate (v : json) : Result (list json) :=
  match v with
  | JArr items => Ok items
  | JStr s => Ok ((fun c => JStr (String c "")) <$> String.list_ascii_of_string s)
  | _ => Throw (mkError "TypeError" "object is not iterable")
  end.

(** The equality of [Set]: by value on null, booleans, numbers and strings;
    two parsed arrays or objects are never the same object. *)
Definition same_value (a b : json) : bool :=
  match a, b with
  | JNull, JNull => true
  | JBool x, JBool y => Bool.eqb x y
  | JNum x, JNum y => x =? y
  | JStr x, JStr y => String.eqb x y
  | _, _ => false
  end.

(** [[...new Set(items)]]: the first occurrence of each value, in order. *)
Definition Set_of (items : list json) : list json :=
  fold_left (fun seen x => if existsb (same_value x) seen then seen else seen ++ [x]) items [].

Definition extractUser (claims : gmap string json) (clientId : string) : Result KeycloakUser :=
  let realmAccess := claims !! "realm_access" in
  let realmRoles := or_empty (opt_prop realmAccess "roles") in
  let resourceAccess := claims !! "resource_access" in
  let clientRoles := or_empty (opt_prop (opt_prop resourceAccess clientId) "roles") in
  realmItems ← iterate realmRoles;
  clientItems ← iterate clientRoles;
  let allRoles := Set_of (realmItems ++ clientItems) in
  mret {| sub := claims !! "sub";
          name := claims !! "name";
          given_name := claims !! "given_name";
          family_name := claims !! "family_name";
          preferred_username := claims !! "preferred_username";
          email := claims !! "email";
          email_verified := claims !! "email_verified";
          roles := allRoles;
          realm_roles := realmRoles;
          client_roles := clientRoles;
          raw_claims := claims |}.

(** [isTokenExpired(expiresAt, marginSeconds = 60)]; a comparison with
    [NaN] is false. *)
Definition isTokenExpired (expiresAt : jsnum) (marginSeconds : option Z) : M bool :=
  ms ← Date_now;
  let now := ms / 1000 in
  mret match expiresAt with
       | Int e => now >=? e - nullish marginSeconds 60
       | NaN => false
       end.

(** ** Session: src/session/session.ts *)

(** [{ ...target, ...source }]: the fields of [source] win. *)
Definition spread (target source : gmap string json) : gmap string json := source ∪ target.

(** [{ ...claims, ...accessClaims, ...claims }] *)
Definition mergedClaims (claims accessClaims : gmap string json) : gmap string json :=
  spread (spread (spread ∅ claims) accessClaims) claims.

Definition buildSession (accessToken : string) (idToken : option string)
    (accessTokenExpiresAt refreshTokenExpiresAt : option jsnum) (clientId : string)
    : Result KeycloakSession :=
  let tokenToDecode := nullish idToken accessToken in
  claims ← decodeToken tokenToDecode;
  accessClaims ← (if truthy_str idToken then decodeToken accessToken else Ok claims);
  user ← extractUser (mergedClaims claims accessClaims) clientId;
  mret {| user := user;
          accessToken := accessToken;
          idToken := nullish idToken accessToken;
          accessTokenExpiresAt := nullish accessTokenExpiresAt (Int 0);
          refreshTokenExpiresAt := nullish refreshTokenExpiresAt (Int 0) |}.

(** [tokenCookies.expiresAt && !isTokenExpired(tokenCookies.expiresAt, margin)] *)
Definition known_not_expired (expiresAt : option jsnum) (margin : Z) : M bool :=
  match expiresAt with
  | Some e =>
      if truthy_num e
      then expired ← isTokenExpired e (Some margin); mret (negb expired)
      else mret false
  | None => mret false
  end.

(** [tokenCookies.refreshExpiresAt && isTokenExpired(tokenCookies.refreshExpiresAt, 0)] *)
Definition known_expired (refreshExpiresAt : option jsnum) : M bool :=
  match refreshExpiresAt with
  | Some e => if truthy_num e then isTokenExpired e (Some 0) else mret false
  | None => mret false
  end.

(** The try block of [getSession]. *)
Definition refreshed_session (config : KeycloakConfig) (cookiePrefix refreshToken : string)
    : M (option KeycloakSession) :=
  newTokens ← refreshAccessToken config refreshToken;
  setTokenCookies newTokens (Some cookiePrefix);;
  session ← lift (buildSession (access_token newTokens) (Some (id_token newTokens))
                    (Some (Int (access_token_expires_at newTokens)))
                    (Some (Int (refresh_token_expires_at newTokens)))
                    (clientId config));
  mret (Some session).

(** [getSession] from the comment "Access token expirado — tentar refresh"
    on. *)
Definition try_refresh (config : KeycloakConfig) (cookiePrefix : string)
    (tokenCookies : TokenCookies) : M (option KeycloakSession) :=
  if truthy_str (tc_refreshToken tokenCookies) then
    expired ← known_expired (tc_refreshExpiresAt tokenCookies);
    if (expired : bool) then mret None
    else try_catch
           (refreshed_session config cookiePrefix (nullish (tc_refreshToken tokenCookies) ""))
           (fun _ => mret None)
  else mret None.

Definition getSession (config : KeycloakConfig) : M (option KeycloakSession) :=
  let cookiePrefix := nullish (cookieName config) "kc" in
  let refreshMargin := nullish (refreshMarginSeconds config) 60 in
  tokenCookies ← getTokenCookies cookiePrefix;
  if negb (truthy_str (tc_accessToken tokenCookies)) &&
     negb (truthy_str (tc_refreshToken tokenCookies))
  then mret None
  else
    valid ← (if truthy_str (tc_accessToken tokenCookies)
             then known_not_expired (tc_expiresAt tokenCookies) refreshMargin
             else mret false);
    if (valid : bool)
    then session ← lift (buildSession (nullish (tc_accessToken tokenCookies) "")
                           (tc_idToken tokenCookies) (tc_expiresAt tokenCookies)
                           (tc_refreshExpiresAt tokenCookies) (clientId config));
         mret (Some session)
    else try_refresh config cookiePrefix tokenCookies.

(** ** Callback: src/handlers/callback.ts *)

(** The request, with its URL already parsed. *)
Record NextRequest := { origin : string; searchParams : list (string * string) }.

Inductive NextResponse :=
| Redirect (to : Url)
| Json (body : gmap string json) (status : Z).

(** searchParams.get(name) *)
Definition searchParams_get (name : string) (ps : list (string * string)) : option string :=
  (fun hit => hit.2.2) <$> list_find (fun p => p.1 = name) ps.

(** url.searchParams.set(k, v) *)
Definition url_set (k v : string) (u : Url) : Url :=
  {| href := href u; query := params_set k v (query u) |}.

(** The try block of the callback handler. *)
Definition exchange_and_store (config : KeycloakConfig) (cookiePrefix baseUrl code redirectUri : string)
    (pkceCookies : PKCECookies) : M NextResponse :=
  tokens ← exchangeCodeForTokens config code (nullish (pk_codeVerifier pkceCookies) "") redirectUri;
  setTokenCookies tokens (Some cookiePrefix);;
  clearPKCECookies cookiePrefix;;
  let returnTo := nullish (pk_returnTo pkceCookies) "/" in
  target ← lift (newURL P returnTo baseUrl);
  mret (Redirect target).

Definition callbackHandler (config : KeycloakConfig) (request : NextRequest) : M NextResponse :=
  let code := searchParams_get "code" (searchParams request) in
  let state := searchParams_get "state" (searchParams request) in
  let error := searchParams_get "error" (searchParams request) in
  let errorDescription := searchParams_get "error_description" (searchParams request) in
  if truthy_str error then
    let baseUrl := origin request in
    errorUrl ← lift (newURL P "/auth/error" baseUrl);
    let errorUrl := url_set "error" (nullish error "") errorUrl in
    let errorUrl :=
      if truthy_str errorDescription
      then url_set "description" (nullish errorDescription "") errorUrl
      else errorUrl in
    mret (Redirect errorUrl)
  else if negb (truthy_str code) then
    mret (Json {[ "error" := JStr "Missing authorization code" ]} 400)
  else
    let cookiePrefix := nullish (cookieName config) "kc" in
    pkceCookies ← getPKCECookies cookiePrefix;
    if negb (truthy_str state) || negb (truthy_str (pk_state pkceCookies)) ||
       negb (bool_decide (state = pk_state pkceCookies))
    then mret (Json {[ "error" := JStr "Invalid state parameter — possible CSRF attack" ]} 403)
    else if negb (truthy_str (pk_codeVerifier pkceCookies)) then
      mret (Json {[ "error" := JStr "Missing PKCE code verifier — session may have expired" ]} 400)
    else
      let baseUrl := origin request in
      let authBasePath := nullish (authBasePath config) "/api/auth" in
      let redirectUri := nullish (redirectUri config) (baseUrl +:+ authBasePath +:+ "/callback") in
      try_catch
        (exchange_and_store config cookiePrefix baseUrl (nullish code "") redirectUri pkceCookies)
        (fun err =>
           console_error "[keycloak-lib] Token exchange failed:" err;;
           mret (Json {[ "error" := JStr "Token exchange failed";
                         "message" := JStr (err_message err) ]} 500)).

(** [createCallbackHandler(config)] returns the function above, closed over
    [config]. *)
Definition createCallbackHandler (config : KeycloakConfig) : NextRequest -> M NextResponse :=
  callbackHandler config.

End Program.

(** ** Vocabulary of the statements *)

(** Every character of [s] passes the test [p]. *)
Fixpoint all_chars (p : ascii -> bool) (s : string) : bool :=
  match s with
  | EmptyString => true
  | String c r => p c && all_chars p r
  end.

Definition is_pad (c : ascii) : bool := Ascii.eqb c "=".
Definition not_pad (c : ascii) : bool := negb (Ascii.eqb c "=").

(** RFC 7636, section 4.1: a code verifier has 43 to 128 characters. *)
Definition rfc7636_length (verifier : string) : Prop :=
  (43 <= String.length verifier <= 128)%nat.

(** What [getTokenCookies] and [getPKCECookies] read from a cookie store. *)
Definition stored_tokens (prefix : string) (jar : gmap string Cookie) : TokenCookies :=
  let names := getCookieNames prefix in
  {| tc_accessToken := c_value <$> jar !! n_accessToken names;
     tc_refreshToken := c_value <$> jar !! n_refreshToken names;
     tc_idToken := c_value <$> jar !! n_idToken names;
     tc_expiresAt := parse_expiry (c_value <$> jar !! n_expiresAt names);
     tc_refreshExpiresAt := parse_expiry (c_value <$> jar !! n_refreshExpiresAt names) |}.

Definition stored_pkce (prefix : string) (jar : gmap string Cookie) : PKCECookies :=
  let names := getCookieNames prefix in
  {| pk_codeVerifier := c_value <$> jar !! n_codeVerifier names;
     pk_state := c_value <$> jar !! n_state names;
     pk_returnTo := c_value <$> jar !! n_returnTo names |}.

(** Math.floor(Date.now() / 1000) *)
Definition now_seconds (w : World) : Z := clock w / 1000.

(** The answer of [isTokenExpired(e, margin)] in the world [w]. *)
Definition expired_at (w : World) (e : jsnum) (margin : Z) : bool :=
  match e with
  | Int e => now_seconds w >=? e - margin
  | NaN => false
  end.

(** The condition of the access-valid branch of [getSession]. *)
Definition access_valid (w : World) (tc : TokenCookies) (margin : Z) : bool :=
  truthy_str (tc_accessToken tc) &&
  match tc_expiresAt tc with
  | Some e => truthy_num e && negb (expired_at w e margin)
  | None => false
  end.

(** The condition under which [getSession] gives up without a refresh. *)
Definition refresh_known_expired (w : World) (tc : TokenCookies) : bool :=
  match tc_refreshExpiresAt tc with
  | Some e => truthy_num e && expired_at w e 0
  | None => false
  end.

Definition cookie_prefix (config : KeycloakConfig) : string := nullish (cookieName config) "kc".
Definition refresh_margin (config : KeycloakConfig) : Z := nullish (refreshMarginSeconds config) 60.

(** The redirect URI the callback handler passes to the exchange. *)
Definition callback_redirectUri (config : KeycloakConfig) (request : NextRequest) : string :=
  nullish (redirectUri config)
    (origin request +:+ nullish (authBasePath config) "/api/auth" +:+ "/callback").

(** The address of the discovery document. *)
Definition wellKnownUrl (url realm : string) : string :=
  getRealmUrl url realm +:+ "/.well-known/openid-configuration".

(** A field of a parsed discovery document; [None] when it is absent. *)
Definition doc_field (doc : json) (k : string) : jsval :=
  match doc with
  | JObj fields => fields !! k
  | _ => None
  end.

(** The cache has no live entry under the key, so that [discoverEndpoints]
    goes to the network. *)
Definition cache_miss (w : World) (key : string) : Prop :=
  match cache w !! key with
  | Some entry => ce_expiresAt entry <= clock w
  | None => True
  end.

(** The cookie store after [setTokenCookies] and after [clearPKCECookies]. *)
Definition production (w : World) : bool := bool_decide (NODE_ENV w = Some "production").

Definition written (production http : bool) (age : Z) (value : string) : Cookie :=
  {| c_value := value;
     c_attrs := Some {| httpOnly := http; secure := production; sameSite := "lax";
                        path := "/"; domain := None; maxAge := age |} |}.

Definition with_tokens (production : bool) (tokens : KeycloakTokens) (prefix : string)
    (jar : gmap string Cookie) : gmap string Cookie :=
  let names := getCookieNames prefix in
  <[n_refreshExpiresAt names :=
      written production false (refresh_expires_in tokens)
        (pretty (refresh_token_expires_at tokens))]>
  (<[n_expiresAt names :=
      written production false (refresh_expires_in tokens)
        (pretty (access_token_expires_at tokens))]>
  (<[n_idToken names := written production true (expires_in tokens) (id_token tokens)]>
  (<[n_refreshToken names :=
      written production true (refresh_expires_in tokens) (refresh_token tokens)]>
  (<[n_accessToken names :=
      written production true (expires_in tokens) (access_token tokens)]> jar)))).

Definition without_pkce (prefix : string) (jar : gmap string Cookie) : gmap string Cookie :=
  let names := getCookieNames prefix in
  delete (n_returnTo names) (delete (n_state names) (delete (n_codeVerifier names) jar)).

(** The access token is missing or expired. *)
Definition access_missing_or_expired (w : World) (tc : TokenCookies) (margin : Z) : Prop :=
  truthy_str (tc_accessToken tc) = false \/
  exists e, tc_expiresAt tc = Some e /\ expired_at w e margin = true.

(** The names of the required fields of a discovery document. *)
Definition required_names : list string := fst <$> requiredFields.

(** ** Sample platforms and worlds *)

Module Sample.

Definition config : KeycloakConfig :=
  {| url := "https://idp.test"; realm := "demo"; clientId := "app";
     clientSecret := None; scopes := None; redirectUri := None;
     postLogoutRedirectUri := None; authBasePath := None; cookieName := None;
     refreshMarginSeconds := None |}.

(** A cookie as it arrives with a request. *)
Definition plain (value : string) : Cookie := {| c_value := value; c_attrs := None |}.

Definition jar (cookies : list (string * string)) : gmap string Cookie :=
  list_to_map (prod_map id plain <$> cookies).

(** A world with the given request cookies, an empty discovery cache and
    the clock at 1700000000 seconds. *)
Definition world (cookies : list (string * string)) : World :=
  {| cookieStore := jar cookies; cache := ∅; clock := 1700000000000;
     netlog := []; console := []; NODE_ENV := None |}.

Definition id_claims : gmap string json :=
  {[ "sub" := JStr "u1"; "name" := JStr "Ada"; "aud" := JStr "app" ]}.

Definition access_claims : gmap string json :=
  {[ "sub" := JStr "u1"; "aud" := JStr "account";
     "realm_access" := JObj {[ "roles" := JArr [JStr "user"; JStr "admin"] ]};
     "resource_access" := JObj {[ "app" := JObj {[ "roles" := JArr [JStr "editor"; JStr "user"] ]} ]} ]}.

(** Two tokens decode; every other string is rejected as jose does. *)
Definition decode (token : string) : Result (gmap string json) :=
  if String.eqb token "id.jwt" then Ok id_claims
  else if String.eqb token "access.jwt" then Ok access_claims
  else Throw (mkError "JWTInvalid" "Invalid JWT").

Definition str_of (v : jsval) : string :=
  match v with Some (JStr s) => s | _ => "" end.

Definition num_of (v : jsval) : Z :=
  match v with Some (JNum n) => n | _ => 0 end.

Definition read_tokens (doc : json) : TokenResponse :=
  {| tr_access_token := str_of (doc_field doc "access_token");
     tr_refresh_token := str_of (doc_field doc "refresh_token");
     tr_id_token := str_of (doc_field doc "id_token");
     tr_token_type := str_of (doc_field doc "token_type");
     tr_expires_in := num_of (doc_field doc "expires_in");
     tr_refresh_expires_in := num_of (doc_field doc "refresh_expires_in");
     tr_scope := str_of (doc_field doc "scope");
     tr_session_state := None |}.

Definition resolve (input base : string) : Result Url :=
  Ok {| href := base +:+ input; query := [] |}.

Definition discovery_document : json :=
  JObj {[ "issuer" := JStr "https://idp.test/realms/demo";
          "authorization_endpoint" := JStr "https://idp.test/realms/demo/auth";
          "token_endpoint" := JStr "https://idp.test/realms/demo/token";
          "end_session_endpoint" := JStr "https://idp.test/realms/demo/logout";
          "jwks_uri" := JStr "https://idp.test/realms/demo/certs" ]}.

Definition token_document : json :=
  JObj {[ "access_token" := JStr "access.jwt";
          "refresh_token" := JStr "refresh.jwt";
          "id_token" := JStr "id.jwt";
          "token_type" := JStr "Bearer";
          "expires_in" := JNum 300;
          "refresh_expires_in" := JNum 1800 ]}.

Definition answer (code : Z) (text : string) (doc : option json) : FetchOutcome :=
  {| elapsed := 20;
     reply := Replied {| status := code; statusText := text; body_text := "";
                         body_json := doc |} |}.

(** A provider that serves its discovery document and grants every token
    request. *)
Definition provider (history : list FetchRequest) (request : FetchRequest) : FetchOutcome :=
  match fr_init request with
  | None => answer 200 "OK" (Some discovery_document)
  | Some _ => answer 200 "OK" (Some token_document)
  end.

(** A provider that serves its discovery document and refuses every token
    request. *)
Definition refusing (history : list FetchRequest) (request : FetchRequest) : FetchOutcome :=
  match fr_init request with
  | None => answer 200 "OK" (Some discovery_document)
  | Some _ => answer 400 "Bad Request" None
  end.

(** A provider whose discovery document lacks [jwks_uri]. *)
Definition incomplete (history : list FetchRequest) (request : FetchRequest) : FetchOutcome :=
  answer 200 "OK" (Some (JObj {[ "issuer" := JStr "https://idp.test/realms/demo";
          "authorization_endpoint" := JStr "https://idp.test/realms/demo/auth";
          "token_endpoint" := JStr "https://idp.test/realms/demo/token";
          "end_session_endpoint" := JStr "https://idp.test/realms/demo/logout" ]})).

(** No network. *)
Definition unreachable (history : list FetchRequest) (request : FetchRequest) : FetchOutcome :=
  {| elapsed := 5; reply := Rejected (mkError "TypeError" "fetch failed") |}.

Definition platform (net : list FetchRequest -> FetchRequest -> FetchOutcome) : Platform :=
  {| network := net; decodeJwt := decode; asTokenResponse := read_tokens; newURL := resolve |}.

Definition callback (params : list (string * string)) : NextRequest :=
  {| origin := "https://app.test"; searchParams := params |}.

(** Stale cookies: the access token lapsed at second 900, the refresh token
    at second 1000. *)
Definition stale : World :=
  world [("kc_at", "access.jwt"); ("kc_exp", "900"); ("kc_rt", "refresh.jwt");
         ("kc_rexp", "1000")].

(** A refresh token whose stored expiry is the timestamp 0. *)
Definition epoch : World := world [("kc_rt", "refresh.jwt"); ("kc_rexp", "0")].

(** A lapsed access token next to a live refresh token. *)
Definition refreshable : World :=
  world [("kc_at", "access.jwt"); ("kc_exp", "900"); ("kc_rt", "refresh.jwt");
         ("kc_rexp", "1800000000")].

(** An access token without its expiry cookie, next to a live and next to
    a lapsed refresh token. *)
Definition undated : World :=
  world [("kc_at", "access.jwt"); ("kc_rt", "refresh.jwt"); ("kc_rexp", "1800000000")].

Definition undated_stale : World :=
  world [("kc_at", "access.jwt"); ("kc_rt", "refresh.jwt"); ("kc_rexp", "1000")].

(** A live access token without and with an id token. *)
Definition access_only : World :=
  world [("kc_at", "access.jwt"); ("kc_exp", "1800000000")].

Definition signed_in : World :=
  world [("kc_at", "access.jwt"); ("kc_id", "id.jwt"); ("kc_exp", "1800000000")].

(** The cookies that the login handler leaves for the callback. *)
Definition pending : World :=
  world [("kc_state", "s"); ("kc_cv", "v"); ("kc_return", "/home")].

End Sample.

(** * The rest of the library *)

(** ** What the other handlers take from the platform *)

(** - [new URL(input)], which throws on a string that is not an absolute
      address ([NextResponse.redirect] validates its argument with it);
    - [crypto.subtle.digest('SHA-256', data)];
    - the bytes that the two calls of [crypto.getRandomValues] of a login
      draw, for the verifier and for the state. *)
Record Host := {
  parseURL : string -> Result Url;
  sha256 : list byte -> list byte;
  random_verifier : nat -> byte;
  random_state : nat -> byte;
}.

(** [String(v)] for a parsed JSON value. *)
Fixpoint js_String (v : json) : string :=
  match v with
  | JNull => "null"
  | JBool true => "true"
  | JBool false => "false"
  | JNum n => pretty n
  | JStr s => s
  | JArr items =>
      (fix join (l : list json) : string :=
         match l with
         | [] => ""
         | x :: rest =>
             let here := match x with JNull => "" | _ => js_String x end in
             match rest with
             | [] => here
             | _ => here +:+ "," +:+ join rest
             end
         end) items
  | JObj _ => "[object Object]"
  end.

Definition js_String_val (v : jsval) : string :=
  match v with
  | Some j => js_String j
  | None => "undefined"
  end.

(** ** PKCE, continued *)

(** new TextEncoder().encode(verifier) *)
Definition utf8 (s : string) : list byte := String.list_byte_of_string s.

Section Handlers.

Context (P : Platform) (H : Host).

(** [generateCodeChallenge(verifier)] *)
Definition generateCodeChallenge (verifier : string) : string :=
  Pkce.base64UrlEncode (sha256 H (utf8 verifier)).

(** [generatePKCEPair()] *)
Definition generatePKCEPair : Result (string * string) :=
  codeVerifier ← Pkce.generateCodeVerifier (random_verifier H) None;
  mret (codeVerifier, generateCodeChallenge codeVerifier).

(** ** Login Route Handler *)

(** [[...new Set(items)]] for strings. *)
Definition unique (items : list string) : list string :=
  fold_left (fun seen x => if bool_decide (x ∈ seen) then seen else seen ++ [x]) items [].

(** items.join(sep) *)
Fixpoint join (sep : string) (items : list string) : string :=
  match items with
  | [] => ""
  | [x] => x
  | x :: rest => x +:+ sep +:+ join sep rest
  end.

Definition loginHandler (config : KeycloakConfig) (request : NextRequest) : M NextResponse :=
  let returnTo := nullish (searchParams_get "returnTo" (searchParams request)) "/" in
  endpoints ← discoverEndpoints P (url config) (realm config);
  pair ← lift generatePKCEPair;
  let codeVerifier := pair.1 in
  let codeChallenge := pair.2 in
  state ← lift (Pkce.generateState (random_state H));
  let baseUrl := origin request in
  let authBasePath := nullish (authBasePath config) "/api/auth" in
  let redirectUri := nullish (redirectUri config) (baseUrl +:+ authBasePath +:+ "/callback") in
  let cookiePrefix := nullish (cookieName config) "kc" in
  setPKCECookies codeVerifier state returnTo cookiePrefix;;
  let scopes := ["openid"; "profile"; "email"] ++ nullish (scopes config) [] in
  let scopeString := join " " (unique scopes) in
  authUrl ← lift (parseURL H (js_String_val (authorization_endpoint endpoints)));
  let authUrl := url_set "client_id" (clientId config) authUrl in
  let authUrl := url_set "response_type" "code" authUrl in
  let authUrl := url_set "redirect_uri" redirectUri authUrl in
  let authUrl := url_set "scope" scopeString authUrl in
  let authUrl := url_set "state" state authUrl in
  let authUrl := url_set "code_challenge" codeChallenge authUrl in
  let authUrl := url_set "code_challenge_method" "S256" authUrl in
  mret (Redirect authUrl).

(** ** Logout Route Handler *)

(** The try block of the logout handler. *)
Definition provider_logout (config : KeycloakConfig) (postLogoutRedirectUri : string)
    (idToken : option string) : M NextResponse :=
  endpoints ← discoverEndpoints P (url config) (realm config);
  logoutUrl ← lift (parseURL H (js_String_val (end_session_endpoint endpoints)));
  let logoutUrl := url_set "post_logout_redirect_uri" postLogoutRedirectUri logoutUrl in
  let logoutUrl := url_set "client_id" (clientId config) logoutUrl in
  let logoutUrl :=
    if truthy_str idToken
    then url_set "id_token_hint" (nullish idToken "") logoutUrl
    else logoutUrl in
  mret (Redirect logoutUrl).

(** [NextResponse.redirect(url)] on a string: the address is validated. *)
Definition redirect_to (target : string) : M NextResponse :=
  location ← lift (parseURL H target);
  mret (Redirect location).

Definition logoutHandler (config : KeycloakConfig) (request : NextRequest) : M NextResponse :=
  let returnTo := searchParams_get "returnTo" (searchParams request) in
  let baseUrl := origin request in
  let postLogoutRedirectUri :=
    nullish returnTo (nullish (postLogoutRedirectUri config) baseUrl) in
  let cookiePrefix := nullish (cookieName config) "kc" in
  tokenCookies ← getTokenCookies cookiePrefix;
  let idToken := tc_idToken tokenCookies in
  clearTokenCookies cookiePrefix;;
  try_catch
    (provider_logout config postLogoutRedirectUri idToken)
    (fun _ => redirect_to postLogoutRedirectUri).

(** ** Session API Route Handler *)

(** A field of an object that is serialised: [undefined] is left out. *)
Definition put (k : string) (v : jsval) (fields : gmap string json) : gmap string json :=
  match v with
  | Some j => <[k := j]> fields
  | None => fields
  end.

(** A number in a serialised object: [NaN] becomes [null]. *)
Definition num_json (n : jsnum) : json :=
  match n with
  | Int z => JNum z
  | NaN => JNull
  end.

(** The user as [NextResponse.json] serialises it. *)
Definition user_json (u : KeycloakUser) : json :=
  JObj (put "sub" (sub u)
       (put "name" (name u)
       (put "given_name" (given_name u)
       (put "family_name" (family_name u)
       (put "preferred_username" (preferred_username u)
       (put "email" (email u)
       (put "email_verified" (email_verified u)
       (<["roles" := JArr (roles u)]>
       (<["realm_roles" := realm_roles u]>
       (<["client_roles" := client_roles u]>
       (<["raw_claims" := JObj (raw_claims u)]> ∅))))))))))).

Definition session_body (session : option KeycloakSession) : gmap string json :=
  match session with
  | None => {[ "authenticated" := JBool false; "user" := JNull ]}
  | Some s =>
      {[ "authenticated" := JBool true;
         "user" := user_json (user s);
         "accessToken" := JStr (accessToken s);
         "accessTokenExpiresAt" := num_json (accessTokenExpiresAt s);
         "refreshTokenExpiresAt" := num_json (refreshTokenExpiresAt s) ]}
  end.

Definition sessionHandler (config : KeycloakConfig) : M NextResponse :=
  try_catch
    (session ← getSession P config;
     mret (Json (session_body session) 200))
    (fun err =>
       console_error "[keycloak-lib] Session check failed:" err;;
       mret (Json {[ "authenticated" := JBool false; "user" := JNull;
                     "error" := JStr "Session check failed" ]} 200)).

(** ** Factory: createAuthHandlers *)

Definition not_found (config : KeycloakConfig) : NextResponse :=
  let authBasePath := nullish (authBasePath config) "/api/auth" in
  Json {[ "error" := JStr "Not found";
          "availableRoutes" :=
            JArr [ JStr (authBasePath +:+ "/login");
                   JStr (authBasePath +:+ "/callback");
                   JStr (authBasePath +:+ "/logout");
                   JStr (authBasePath +:+ "/session") ] ]} 404.

(** [GET(request, context)], with [auth] the already awaited
    [context.params.auth]. *)
Definition GET (config : KeycloakConfig) (auth : option (list string)) (request : NextRequest)
    : M NextResponse :=
  let route := auth ≫= head in
  match route with
  | Some r =>
      if String.eqb r "login" then loginHandler config request
      else if String.eqb r "callback" then callbackHandler P config request
      else if String.eqb r "logout" then logoutHandler config request
      else if String.eqb r "session" then sessionHandler config
      else mret (not_found config)
  | None => mret (not_found config)
  end.

End Handlers.

(** ** KeycloakProvider: the role tests *)

(** s.includes(sub) on strings *)
Fixpoint starts_with (sub s : string) : bool :=
  match sub, s with
  | EmptyString, _ => true
  | String a sub', String b s' => Ascii.eqb a b && starts_with sub' s'
  | String _ _, EmptyString => false
  end.

Fixpoint includes_str (s sub : string) : bool :=
  starts_with sub s ||
  match s with
  | String _ r => includes_str r sub
  | EmptyString => false
  end.

(** [v.includes(role)]: a search in an array or in a string; the other
    values have no such method. *)
Definition includes (v : json) (role : string) : Result bool :=
  match v with
  | JArr items => Ok (existsb (same_value (JStr role)) items)
  | JStr s => Ok (includes_str s role)
  | _ => Throw (mkError "TypeError" "includes is not a function")
  end.

(** [user?.roles.includes(role) ?? false] and its two siblings, for the
    user in the state of the provider. *)
Definition hasRole (user : option KeycloakUser) (role : string) : bool :=
  match user with
  | Some u => existsb (same_value (JStr role)) (roles u)
  | None => false
  end.

Definition hasRealmRole (user : option KeycloakUser) (role : string) : Result bool :=
  match user with
  | Some u => includes (realm_roles u) role
  | None => Ok false
  end.

Definition hasClientRole (user : option KeycloakUser) (role : string) : Result bool :=
  match user with
  | Some u => includes (client_roles u) role
  | None => Ok false
  end.

(** ** Vocabulary of the further statements *)

(** The characters of base64url: letters, digits, "-" and "_". *)
Definition url_safe (c : ascii) : bool :=
  let n := N_of_ascii c in
  ((65 <=? n) && (n <=? 90) || (97 <=? n) && (n <=? 122) || (48 <=? n) && (n <=? 57) ||
   (n =? 45) || (n =? 95))%N.

(** The value of a base64url character. *)
Definition sextet_of (c : ascii) : N :=
  let n := N_of_ascii c in
  (if (65 <=? n) && (n <=? 90) then n - 65
   else if (97 <=? n) && (n <=? 122) then n - 71
   else if (48 <=? n) && (n <=? 57) then n + 4
   else if n =? 45 then 62
   else 63)%N.

Definition byte_of_N (n : N) : byte := byte_of_ascii (ascii_of_N n).

(** The reader of unpadded base64url text: four characters give three
    bytes, a rest of three gives two and a rest of two gives one. *)
Fixpoint base64UrlDecode (text : string) : list byte :=
  match text with
  | String a (String b (String c (String d rest))) =>
      let '(p, q, r, s) := (sextet_of a, sextet_of b, sextet_of c, sextet_of d) in
      byte_of_N (4 * p + q / 16) :: byte_of_N (16 * (q mod 16) + r / 4)
        :: byte_of_N (64 * (r mod 4) + s) :: base64UrlDecode rest
  | String a (String b (String c EmptyString)) =>
      let '(p, q, r) := (sextet_of a, sextet_of b, sextet_of c) in
      [byte_of_N (4 * p + q / 16); byte_of_N (16 * (q mod 16) + r / 4)]
  | String a (String b EmptyString) =>
      let '(p, q) := (sextet_of a, sextet_of b) in
      [byte_of_N (4 * p + q / 16)]
  | _ => []
  end%N.

(** Every required field of the endpoints is truthy. *)
Definition endpoints_valid (endpoints : OIDCEndpoints) : Prop :=
  Forall (fun field => truthy (field.2 endpoints) = true) requiredFields.

(** Every entry of the discovery cache holds valid endpoints. *)
Definition cache_valid (w : World) : Prop :=
  forall key entry, cache w !! key = Some entry -> endpoints_valid (ce_endpoints entry).

(** The request that [discoverEndpoints] sends. *)
Definition discovery_request (url realm : string) : FetchRequest :=
  {| fr_input := Some (JStr (wellKnownUrl url realm)); fr_init := None |}.


(** The cookie store after [clearTokenCookies]. *)
Definition without_tokens (prefix : string) (jar : gmap string Cookie) : gmap string Cookie :=
  let names := getCookieNames prefix in
  delete (n_refreshExpiresAt names) (delete (n_expiresAt names) (delete (n_idToken names)
    (delete (n_refreshToken names) (delete (n_accessToken names) jar)))).

(** The unpadded base64 text of a binary string, before "+" and "/" are
    replaced: [btoa] without its "=". *)
Fixpoint unpadded (binary : string) : string :=
  match binary with
  | EmptyString => ""
  | String a EmptyString =>
      let g := Pkce.group24 a zero zero in
      String (Pkce.sextet 3 g) (String (Pkce.sextet 2 g) "")
  | String a (String b EmptyString) =>
      let g := Pkce.group24 a b zero in
      String (Pkce.sextet 3 g) (String (Pkce.sextet 2 g) (String (Pkce.sextet 1 g) ""))
  | String a (String b (String c rest)) =>
      let g := Pkce.group24 a b c in
      String (Pkce.sextet 3 g) (String (Pkce.sextet 2 g)
        (String (Pkce.sextet 1 g) (String (Pkce.sextet 0 g) (unpadded rest))))
  end.

(** A character of the base64 alphabet of [btoa]. *)
Definition base64_char (c : ascii) : bool :=
  let n := N_of_ascii c in
  ((65 <=? n) && (n <=? 90) || (97 <=? n) && (n <=? 122) || (48 <=? n) && (n <=? 57) ||
   (n =? 43) || (n =? 47))%N.

(** What the two [replace] calls of [base64UrlEncode] do to a character. *)
Definition url_char (c : ascii) : ascii :=
  let c := if Ascii.eqb c "+" then "-"%char else c in
  if Ascii.eqb c "/" then "_"%char else c.

(** [s] with every character replaced by its image under [f]. *)
Fixpoint map_chars (f : ascii -> ascii) (s : string) : string :=
  match s with
  | EmptyString => EmptyString
  | String c r => String (f c) (map_chars f r)
  end.

(** The forms that the two token calls post, and the request that carries
    one. *)
Definition exchange_body (config : KeycloakConfig) (code codeVerifier redirectUri : string)
    : list (string * string) :=
  with_secret config
    [ ("grant_type", "authorization_code");
      ("client_id", clientId config);
      ("code", code);
      ("redirect_uri", redirectUri);
      ("code_verifier", codeVerifier) ].

Definition refresh_body (config : KeycloakConfig) (refreshToken : string)
    : list (string * string) :=
  with_secret config
    [ ("grant_type", "refresh_token");
      ("client_id", clientId config);
      ("refresh_token", refreshToken) ].

Definition token_request (endpoints : OIDCEndpoints) (body : list (string * string))
    : FetchRequest :=
  {| fr_input := token_endpoint endpoints; fr_init := post_form body |}.

(** The client secret that a token call sends: the configured one unless it
    is absent or empty. *)
Definition sent_secret (config : KeycloakConfig) : option string :=
  if truthy_str (clientSecret config) then clientSecret config else None.


(** The cookie store after [setPKCECookies]. *)
Definition with_pkce (production : bool) (codeVerifier state returnTo prefix : string)
    (jar : gmap string Cookie) : gmap string Cookie :=
  let names := getCookieNames prefix in
  <[n_returnTo names := written production false 300 returnTo]>
  (<[n_state names := written production true 300 state]>
  (<[n_codeVerifier names := written production true 300 codeVerifier]> jar)).

(** The status of an answer; a redirect has none here. *)
Definition status_of (response : NextResponse) : option Z :=
  match response with
  | Json _ status => Some status
  | Redirect _ => None
  end.

(** The target of the logout handler. *)
Definition logout_target (config : KeycloakConfig) (request : NextRequest) : string :=
  nullish (searchParams_get "returnTo" (searchParams request))
    (nullish (postLogoutRedirectUri config) (origin request)).

(** The scopes that the login handler asks for. *)
Definition login_scopes (config : KeycloakConfig) : list string :=
  unique (["openid"; "profile"; "email"] ++ nullish (scopes config) []).

(** The verifier and the state that a login draws from the host. *)
Definition login_verifier (H : Host) : string :=
  Pkce.base64UrlEncode (map (random_verifier H) (seq 0 64)).

Definition login_state (H : Host) : string :=
  Pkce.base64UrlEncode (map (random_state H) (seq 0 32)).

(** The answer of the CSRF check of the callback handler. *)
Definition csrf_rejection : NextResponse :=
  Json {[ "error" := JStr "Invalid state parameter — possible CSRF attack" ]} 403.

(** The world in which the logout handler looks for the provider: the
    token cookies are gone. *)
Definition signed_out (config : KeycloakConfig) (w : World) : World :=
  set_cookieStore (without_tokens (cookie_prefix config)) w.

(** ** Further sample inputs *)

Module Fixture.

(** An address parser that accepts the https addresses. *)
Definition parse (address : string) : Result Url :=
  if starts_with "https://" address
  then Ok {| href := address; query := [] |}
  else Throw (mkError "TypeError" "Invalid URL").

(** A stand-in for SHA-256: 32 bytes taken from the data. *)
Definition digest (data : list byte) : list byte := take 32 (data ++ repeat x00%byte 32).

Definition host : Host :=
  {| parseURL := parse; sha256 := digest;
     random_verifier := fun i => byte_of_N (N.of_nat i);
     random_state := fun i => byte_of_N (N.of_nat (i + 100)) |}.

Definition provider : Platform := Sample.platform Sample.provider.

(** The world after a first discovery. *)
Definition discovered : World :=
  (discoverEndpoints provider "https://idp.test" "demo" (Sample.world [])).2.


(** The world after a login from the home page. *)
Definition login_request : NextRequest :=
  {| origin := "https://app.test"; searchParams := [("returnTo", "/home")] |}.

Definition after_login : World :=
  (loginHandler provider host Sample.config login_request (Sample.world [])).2.

Definition tokens : KeycloakTokens :=
  {| access_token := "access.jwt"; refresh_token := "refresh.jwt"; id_token := "id.jwt";
     token_type := "Bearer"; expires_in := 300; refresh_expires_in := 1800;
     access_token_expires_at := 1700000300; refresh_token_expires_at := 1700001800 |}.

(** A configuration with a client secret. *)
Definition confidential : KeycloakConfig :=
  {| url := "https://idp.test"; realm := "demo"; clientId := "app";
     clientSecret := Some "s3cret"; scopes := Some ["email"; "offline_access"];
     redirectUri := None; postLogoutRedirectUri := None; authBasePath := None;
     cookieName := None; refreshMarginSeconds := None |}.

(** A platform whose tokens do not decode. *)
Definition opaque_tokens : Platform :=
  {| network := Sample.provider;
     decodeJwt := fun _ => Throw (mkError "JWTInvalid" "Invalid JWT");
     asTokenResponse := Sample.read_tokens; newURL := Sample.resolve |}.


End Fixture.

(** * Theorems *)

(** ** PKCE *)

Module PkceFacts.
Import Pkce.

Example base64UrlEncode_foobar :
  base64UrlEncode [x66; x6f; x6f; x62; x61]%byte = "Zm9vYmE".
Proof. reflexivity. Qed.

Example base64UrlEncode_urlsafe :
  base64UrlEncode [xfb; xff; xfe]%byte = "-__-" /\ base64UrlEncode [xff]%byte = "_w".
Proof. split; reflexivity. Qed.

Lemma length_app (s t : string) :
  String.length (s +:+ t) = (String.length s + String.length t)%nat.
Proof. induction s as [|c s IH]; simpl; [done | by rewrite IH]. Qed.

Lemma binary_of_length_acc (buffer : list byte) (acc : string) :
  String.length (fold_left (fun binary b => binary +:+ String (ascii_of_byte b) "") buffer acc)
  = (String.length acc + length buffer)%nat.
Proof.
  revert acc. induction buffer as [|b buffer IH]; intros acc; simpl.
  - lia.
  - rewrite IH, length_app. simpl. lia.
Qed.

Lemma binary_of_length (buffer : list byte) :
  String.length (binary_of buffer) = length buffer.
Proof. unfold binary_of. by rewrite binary_of_length_acc. Qed.

Lemma sextet_char_not_pad (n : N) : not_pad (sextet_char n) = true.
Proof.
  unfold sextet_char.
  assert (Hlt : (N.to_nat (N.land n 63) < 64)%nat).
  { change 63%N with (N.ones 6). rewrite N.land_ones.
    pose proof (N.mod_upper_bound n (2 ^ 6)%N). change (2 ^ 6)%N with 64%N in *. lia. }
  revert Hlt. generalize (N.to_nat (N.land n 63)). intros i Hi.
  assert (Hall : forallb (fun i => not_pad (nullish (String.get i alphabet) "A"%char))
                   (seq 0 64) = true) by (vm_compute; reflexivity).
  rewrite forallb_forall in Hall. apply Hall, in_seq. lia.
Qed.

Lemma sextet_not_pad (k g : N) : not_pad (sextet k g) = true.
Proof. apply sextet_char_not_pad. Qed.

(** The output of [btoa] is a body without "=" followed by the padding;
    the body has ceil(4n/3) characters. *)
Lemma btoa_shape (n : nat) : forall s : string,
  (String.length s < n)%nat ->
  exists body pad : string,
    btoa s = body +:+ pad /\ all_chars not_pad body = true /\ all_chars is_pad pad = true /\
    (3 * String.length body <= 4 * String.length s + 2 < 3 * String.length body + 3)%nat.
Proof.
  induction n as [|n IH]; intros s Hs; [lia|].
  destruct s as [|a [|b [|c rest]]].
  - exists "", "". simpl. repeat split; lia.
  - eexists (String _ (String _ "")), "==". simpl.
    rewrite !sextet_not_pad. repeat split; lia.
  - eexists (String _ (String _ (String _ ""))), "=". simpl.
    rewrite !sextet_not_pad. repeat split; lia.
  - destruct (IH rest) as (body & pad & Hb & Hbody & Hpad & Hlen); [simpl in Hs; lia|].
    eexists (String _ (String _ (String _ (String _ body)))), pad.
    change (btoa (String a (String b (String c rest)))) with
      (let g := group24 a b c in
       String (sextet 3 g) (String (sextet 2 g)
         (String (sextet 1 g) (String (sextet 0 g) (btoa rest))))).
    cbv zeta. rewrite Hb. simpl. rewrite !sextet_not_pad, Hbody.
    repeat split; try done; lia.
Qed.

Lemma replace_all_app (x y : ascii) (s t : string) :
  replace_all x y (s +:+ t) = replace_all x y s +:+ replace_all x y t.
Proof. induction s as [|c s IH]; simpl; [done | by rewrite IH]. Qed.

Lemma replace_all_length (x y : ascii) (s : string) :
  String.length (replace_all x y s) = String.length s.
Proof. induction s as [|c s IH]; simpl; [done | by rewrite IH]. Qed.

Lemma replace_all_not_pad (x y : ascii) (s : string) :
  not_pad y = true -> all_chars not_pad s = true ->
  all_chars not_pad (replace_all x y s) = true.
Proof.
  intros Hy. induction s as [|c s IH]; simpl; [done|].
  intros [Hc Hs]%andb_prop. rewrite (IH Hs).
  destruct (Ascii.eqb c x); [by rewrite Hy | by rewrite Hc].
Qed.

Lemma replace_all_pad (x y : ascii) (s : string) :
  is_pad x = false -> all_chars is_pad s = true -> replace_all x y s = s.
Proof.
  intros Hx. induction s as [|c s IH]; simpl; [done|].
  intros [Hc Hs]%andb_prop. rewrite (IH Hs).
  destruct (Ascii.eqb_spec c x) as [->|]; [|done].
  unfold is_pad in *. congruence.
Qed.

Lemma strip_trailing_pad (pad : string) :
  all_chars is_pad pad = true -> strip_trailing "=" pad = "".
Proof.
  induction pad as [|c s IH]; simpl; [done|].
  intros [Hc Hs]%andb_prop. rewrite (IH Hs). unfold is_pad in Hc. by rewrite Hc.
Qed.

Lemma strip_trailing_body (body pad : string) :
  all_chars not_pad body = true -> all_chars is_pad pad = true ->
  strip_trailing "=" (body +:+ pad) = body.
Proof.
  intros Hbody Hpad. induction body as [|c s IH]; simpl.
  - by apply strip_trailing_pad.
  - simpl in Hbody. apply andb_prop in Hbody as [Hc Hs].
    change (String c s +:+ pad) with (String c (s +:+ pad)). simpl.
    rewrite (IH Hs).
    unfold not_pad in Hc. apply negb_true_iff in Hc. rewrite Hc. by destruct s.
Qed.

(** n bytes encode to ceil(4n/3) characters. *)
Lemma base64UrlEncode_length (buffer : list byte) :
  String.length (base64UrlEncode buffer) = ((4 * length buffer + 2) / 3)%nat.
Proof.
  unfold base64UrlEncode.
  destruct (btoa_shape (S (String.length (binary_of buffer))) (binary_of buffer))
    as (body & pad & Hb & Hbody & Hpad & Hlen); [lia|].
  rewrite Hb, !replace_all_app, !(replace_all_pad _ _ pad) by done.
  rewrite strip_trailing_body; [| by repeat apply replace_all_not_pad | done].
  rewrite !replace_all_length. rewrite binary_of_length in Hlen.
  apply Nat.div_unique with (r := (4 * length buffer + 2 - 3 * String.length body)%nat); lia.
Qed.

(** The verifier of [generateCodeVerifier(len)] has ceil(4 len / 3)
    characters: [len] counts the random bytes, not the characters. *)
Lemma generateCodeVerifier_length (rng : nat -> byte) (len : nat) :
  (N.of_nat len <= 65536)%N ->
  exists verifier : string,
    generateCodeVerifier rng (Some len) = Ok verifier /\
    String.length verifier = ((4 * len + 2) / 3)%nat.
Proof.
  intros Hlen. unfold generateCodeVerifier, getRandomValues. simpl.
  destruct (N.ltb_spec 65536 (N.of_nat len)) as [?|_]; [lia|].
  eexists. split; [reflexivity|].
  by rewrite base64UrlEncode_length, length_map, length_seq.
Qed.

(** The byte counts for which the verifier is in the range of RFC 7636
    are exactly 32 to 96. *)
Lemma generateCodeVerifier_in_range_iff (rng : nat -> byte) (len : nat) (verifier : string) :
  generateCodeVerifier rng (Some len) = Ok verifier ->
  rfc7636_length verifier <-> (32 <= len <= 96)%nat.
Proof.
  intros Hgen. unfold generateCodeVerifier, getRandomValues in Hgen. simpl in Hgen.
  destruct (N.ltb_spec 65536 (N.of_nat len)) as [?|Hle]; [done|].
  injection Hgen as <-. unfold rfc7636_length.
  rewrite base64UrlEncode_length, length_map, length_seq.
  pose proof (Nat.div_mod_eq (4 * len + 2) 3) as Hdiv.
  pose proof (Nat.mod_upper_bound (4 * len + 2) 3). lia.
Qed.

(** The default call [generateCodeVerifier()] draws 64 bytes and returns 86
    characters, inside the range of RFC 7636. *)
Lemma generateCodeVerifier_default (rng : nat -> byte) :
  exists verifier : string,
    generateCodeVerifier rng None = Ok verifier /\
    String.length verifier = 86%nat /\ rfc7636_length verifier.
Proof.
  destruct (generateCodeVerifier_length rng 64) as (v & Hv & Hlen); [lia|].
  exists v. split; [exact Hv|]. unfold rfc7636_length. rewrite Hlen.
  change ((4 * 64 + 2) / 3)%nat with 86%nat. lia.
Qed.

(** C5, at the length 128: [generateCodeVerifier(128)] returns a verifier of
    171 characters, above the 128 characters that RFC 7636 and the comment of
    the function allow. *)
Theorem generateCodeVerifier_128_out_of_range (rng : nat -> byte) :
  exists verifier : string,
    generateCodeVerifier rng (Some 128%nat) = Ok verifier /\
    String.length verifier = 171%nat /\ ~ rfc7636_length verifier.
Proof.
  destruct (generateCodeVerifier_length rng 128) as (v & Hv & Hlen); [lia|].
  exists v. split; [exact Hv|].
  change ((4 * 128 + 2) / 3)%nat with 171%nat in Hlen.
  split; [exact Hlen|]. unfold rfc7636_length. lia.
Qed.

End PkceFacts.

(** ** Values and pure helpers *)

Example parseInt_examples :
  parseInt "1700000000" = Int 1700000000 /\ parseInt "0" = Int 0 /\
  parseInt " -12px" = Int (-12) /\ parseInt "abc" = NaN /\ parseInt "" = NaN.
Proof. repeat split. Qed.

Example getRealmUrl_examples :
  getRealmUrl "https://idp.test/" "demo" = "https://idp.test/realms/demo" /\
  getRealmUrl "https://idp.test" "demo" = "https://idp.test/realms/demo".
Proof. split; reflexivity. Qed.

Example searchParams_get_first :
  searchParams_get "code" [("state", "s"); ("code", "c1"); ("code", "c2")] = Some "c1" /\
  searchParams_get "error" [("state", "s")] = None.
Proof. split; reflexivity. Qed.

(** The roles of a user are the realm roles followed by the client roles
    that are not among them. *)
Example extractUser_roles :
  exists u : KeycloakUser,
    extractUser Sample.access_claims "app" = Ok u /\
    roles u = [JStr "user"; JStr "admin"; JStr "editor"] /\
    realm_roles u = JArr [JStr "user"; JStr "admin"] /\
    client_roles u = JArr [JStr "editor"; JStr "user"].
Proof. eexists. split; [reflexivity|]. repeat split. Qed.

(** ** Runs of the effectful functions *)

Section Facts.
Context (P : Platform).

Lemma bind_run {A B : Type} (m : M A) (f : A -> M B) (w : World) :
  (m ≫= f) w =
  match m w with
  | (Ok a, w') => f a w'
  | (Throw e, w') => (Throw e, w')
  end.
Proof. reflexivity. Qed.

Lemma getTokenCookies_eq prefix w :
  getTokenCookies prefix w = (Ok (stored_tokens prefix (cookieStore w)), w).
Proof. reflexivity. Qed.

Lemma getPKCECookies_eq prefix w :
  getPKCECookies prefix w = (Ok (stored_pkce prefix (cookieStore w)), w).
Proof. reflexivity. Qed.


Lemma known_not_expired_eq e m w :
  known_not_expired e m w =
  (Ok (match e with Some e => truthy_num e && negb (expired_at w e m) | None => false end), w).
Proof.
  unfold known_not_expired. destruct e as [e|]; [|done].
  destruct (truthy_num e); done.
Qed.

Lemma known_expired_eq tc w :
  known_expired (tc_refreshExpiresAt tc) w = (Ok (refresh_known_expired w tc), w).
Proof.
  unfold known_expired, refresh_known_expired. destruct (tc_refreshExpiresAt tc) as [e|]; [|done].
  destruct (truthy_num e); done.
Qed.

Lemma try_refresh_eq config prefix tc w :
  try_refresh P config prefix tc w =
  if truthy_str (tc_refreshToken tc) then
    if refresh_known_expired w tc then (Ok None, w)
    else try_catch (refreshed_session P config prefix (nullish (tc_refreshToken tc) ""))
           (fun _ => mret None) w
  else (Ok None, w).
Proof.
  unfold try_refresh. destruct (truthy_str (tc_refreshToken tc)); [|done].
  unfold mbind, M_bind. rewrite known_expired_eq.
  by destruct (refresh_known_expired w tc).
Qed.

Lemma getSession_eq config w :
  let tc := stored_tokens (cookie_prefix config) (cookieStore w) in
  getSession P config w =
  if negb (truthy_str (tc_accessToken tc)) && negb (truthy_str (tc_refreshToken tc))
  then (Ok None, w)
  else if access_valid w tc (refresh_margin config)
  then match buildSession P (nullish (tc_accessToken tc) "") (tc_idToken tc) (tc_expiresAt tc)
               (tc_refreshExpiresAt tc) (clientId config) with
       | Ok session => (Ok (Some session), w)
       | Throw e => (Throw e, w)
       end
  else try_refresh P config (cookie_prefix config) tc w.
Proof.
  intros tc. unfold getSession. fold (cookie_prefix config) (refresh_margin config).
  unfold mbind at 1. unfold M_bind at 1. rewrite getTokenCookies_eq. fold tc.
  destruct (negb (truthy_str (tc_accessToken tc)) && negb (truthy_str (tc_refreshToken tc)));
    [done|].
  unfold access_valid. unfold mbind at 1. unfold M_bind at 1.
  destruct (truthy_str (tc_accessToken tc)); cbn [andb].
  - rewrite known_not_expired_eq.
    destruct (match tc_expiresAt tc with Some e => _ | None => _ end); [|done].
    unfold mbind, M_bind, lift.
    by destruct (buildSession _ _ _ _ _ _).
  - done.
Qed.


Lemma fetch_eq input init w :
  fetch P input init w =
  (match reply (network P (netlog w) {| fr_input := input; fr_init := init |}) with
   | Rejected e => Throw e
   | Replied r => Ok r
   end,
   sent {| fr_input := input; fr_init := init |}
        (elapsed (network P (netlog w) {| fr_input := input; fr_init := init |})) w).
Proof. unfold fetch. by destruct (reply _). Qed.

Lemma discover_fetch_eq url realm key w :
  let req := {| fr_input := Some (JStr (wellKnownUrl url realm)); fr_init := None |} in
  let out := network P (netlog w) req in
  let w1 := sent req (elapsed out) w in
  discover_fetch P url realm key w =
  match reply out with
  | Rejected e => (Throw e, w1)
  | Replied response =>
      match read_discovery (wellKnownUrl url realm) response with
      | Ok endpoints =>
          (Ok endpoints,
           set_cache (insert key {| ce_endpoints := endpoints;
                                    ce_expiresAt := clock w1 + CACHE_TTL_MS |}) w1)
      | Throw e => (Throw e, w1)
      end
  end.
Proof.
  intros req out w1. unfold discover_fetch. fold (wellKnownUrl url realm).
  unfold mbind at 1. unfold M_bind at 1. rewrite fetch_eq. fold req out w1.
  destruct (reply out) as [e|response]; [done|].
  unfold mbind at 1. unfold M_bind at 1. unfold lift.
  by destruct (read_discovery _ response).
Qed.

Lemma discoverEndpoints_eq url realm w :
  discoverEndpoints P url realm w =
  match cache w !! (url +:+ ":" +:+ realm) with
  | Some entry =>
      if clock w <? ce_expiresAt entry then (Ok (ce_endpoints entry), w)
      else discover_fetch P url realm (url +:+ ":" +:+ realm) w
  | None => discover_fetch P url realm (url +:+ ":" +:+ realm) w
  end.
Proof.
  unfold discoverEndpoints. unfold mbind at 1. unfold M_bind at 1. unfold cache_get.
  destruct (cache w !! _) as [entry|]; [|done].
  unfold mbind, M_bind, Date_now. by destruct (clock w <? ce_expiresAt entry).
Qed.

Lemma discover_fetch_run url realm key w r w' :
  discover_fetch P url realm key w = (r, w') ->
  cookieStore w' = cookieStore w /\ console w' = console w /\
  length (netlog w') = S (length (netlog w)) /\
  (forall e, r = Throw e -> cache w' = cache w).
Proof.
  rewrite discover_fetch_eq. cbv zeta.
  destruct (reply _) as [e|response].
  - intros [= <- <-]. cbn. rewrite length_app. cbn. repeat split; try done; lia.
  - destruct (read_discovery _ response) as [endpoints|e]; intros [= <- <-]; cbn;
      rewrite length_app; cbn; repeat split; try done; lia.
Qed.

Lemma discoverEndpoints_run url realm w r w' :
  discoverEndpoints P url realm w = (r, w') ->
  cookieStore w' = cookieStore w /\ console w' = console w /\
  (length (netlog w) <= length (netlog w'))%nat /\
  (forall e, r = Throw e -> cache w' = cache w /\ length (netlog w') = S (length (netlog w))).
Proof.
  rewrite discoverEndpoints_eq. intros Hrun.
  assert (Hfetch : discover_fetch P url realm (url +:+ ":" +:+ realm) w = (r, w') ->
    cookieStore w' = cookieStore w /\ console w' = console w /\
    (length (netlog w) <= length (netlog w'))%nat /\
    (forall e, r = Throw e -> cache w' = cache w /\ length (netlog w') = S (length (netlog w)))).
  { intros (? & ? & ? & ?)%discover_fetch_run. repeat split; eauto; lia. }
  destruct (cache w !! _) as [entry|]; [|by apply Hfetch].
  destruct (clock w <? ce_expiresAt entry); [|by apply Hfetch].
  injection Hrun as <- <-. repeat split; try done; lia.
Qed.


Ltac token_request_run Hrun :=
  unfold mbind at 1 in Hrun; unfold M_bind at 1 in Hrun;
  match type of Hrun with
  | context [discoverEndpoints ?P ?u ?r ?w] =>
      let Hd := fresh "Hd" in
      destruct (discoverEndpoints P u r w) as [[endpoints|e] w1] eqn:Hd;
      apply discoverEndpoints_run in Hd as (? & ? & ? & ?)
  end;
  [ unfold mbind at 1 in Hrun; unfold M_bind at 1 in Hrun;
    rewrite fetch_eq in Hrun;
    destruct (reply _) as [e|response];
    [ injection Hrun as <- <-
    | destruct (negb (ok response));
      [ injection Hrun as <- <-
      | unfold mbind at 1 in Hrun; unfold M_bind at 1 in Hrun; unfold lift in Hrun;
        destruct (response_json response); injection Hrun as <- <- ] ];
    cbn; rewrite length_app; cbn; repeat split; try done; lia
  | injection Hrun as <- <-;
    match goal with
    | H : forall e', Throw _ = Throw e' -> _ |- _ => destruct (H _ eq_refl) as [_ ?]
    end;
    repeat split; try done; lia ].

Lemma refreshAccessToken_run config refreshToken w r w' :
  refreshAccessToken P config refreshToken w = (r, w') ->
  cookieStore w' = cookieStore w /\ console w' = console w /\
  (length (netlog w) < length (netlog w'))%nat.
Proof. unfold refreshAccessToken. intros Hrun. token_request_run Hrun. Qed.

Lemma exchangeCodeForTokens_run config code codeVerifier redirectUri w r w' :
  exchangeCodeForTokens P config code codeVerifier redirectUri w = (r, w') ->
  cookieStore w' = cookieStore w /\ console w' = console w /\
  (length (netlog w) < length (netlog w'))%nat.
Proof. unfold exchangeCodeForTokens. intros Hrun. token_request_run Hrun. Qed.

End Facts.

(** ** The session resolver *)

Section Session.
Context (P : Platform).

Lemma missing_or_expired_not_valid w tc margin :
  access_missing_or_expired w tc margin -> access_valid w tc margin = false.
Proof.
  unfold access_valid. intros [-> | (e & -> & ->)]; [done|].
  by rewrite andb_false_r, andb_false_r.
Qed.

Lemma setTokenCookies_eq tokens prefix w :
  setTokenCookies tokens (Some prefix) w =
  (Ok tt, set_cookieStore (with_tokens (production w) tokens prefix) w).
Proof. reflexivity. Qed.

Lemma clearPKCECookies_eq prefix w :
  clearPKCECookies prefix w = (Ok tt, set_cookieStore (without_pkce prefix) w).
Proof. reflexivity. Qed.

(** A session resolution that does not take the access-valid branch
    continues with the refresh part. *)
Lemma getSession_not_valid config w :
  let tc := stored_tokens (cookie_prefix config) (cookieStore w) in
  access_valid w tc (refresh_margin config) = false ->
  getSession P config w = try_refresh P config (cookie_prefix config) tc w.
Proof.
  intros tc Hvalid. rewrite getSession_eq. fold tc. rewrite Hvalid.
  destruct (negb (truthy_str (tc_accessToken tc)) && negb (truthy_str (tc_refreshToken tc)))
    eqn:Hnone; [|done].
  apply andb_prop in Hnone as [_ Hrt]. apply negb_true_iff in Hrt.
  by rewrite try_refresh_eq, Hrt.
Qed.

(** A refresh attempt sends a request, whatever its outcome. *)
Lemma refresh_attempt_sends config prefix refreshToken w :
  (length (netlog w) <
   length (netlog (try_catch (refreshed_session P config prefix refreshToken)
                     (fun _ => mret None) w).2))%nat.
Proof.
  unfold try_catch, refreshed_session. unfold mbind at 1. unfold M_bind at 1.
  destruct (refreshAccessToken P config refreshToken w) as [[newTokens|e] w1] eqn:Hrun;
    apply refreshAccessToken_run in Hrun as (_ & _ & Hlog); [|done].
  unfold mbind at 1. unfold M_bind at 1.
  rewrite setTokenCookies_eq.
  unfold mbind, M_bind, lift. by destruct (buildSession _ _ _ _ _ _).
Qed.

(** C6: [isTokenExpired(exp, m)] is true exactly when now >= exp - m, with
    now = floor(Date.now() / 1000); in particular it is true at the boundary
    now = exp - m.  The call reads the clock and changes nothing. *)
Theorem isTokenExpired_iff (w : World) (exp m : Z) :
  exists b : bool,
    isTokenExpired (Int exp) (Some m) w = (Ok b, w) /\
    (b = true <-> now_seconds w >= exp - m) /\
    (now_seconds w = exp - m -> b = true).
Proof.
  exists (now_seconds w >=? exp - m). split; [reflexivity|].
  rewrite Z.geb_le. split; [lia | intros ->; lia].
Qed.

(** With one argument the margin is 60 seconds. *)
Lemma isTokenExpired_default_margin (w : World) (exp : Z) :
  isTokenExpired (Int exp) None w = isTokenExpired (Int exp) (Some 60) w.
Proof. reflexivity. Qed.

(** C2, as amended: when the access-valid branch is not taken (the access
    token is missing or expired), a refresh token is stored, and the stored
    refresh expiry is a non-zero timestamp in the past, [getSession] returns
    null and leaves the world as it was: no request is sent and no cookie is
    written or deleted. *)
Theorem getSession_refresh_expired (config : KeycloakConfig) (w : World) (r : Z) :
  let tc := stored_tokens (cookie_prefix config) (cookieStore w) in
  access_valid w tc (refresh_margin config) = false ->
  truthy_str (tc_refreshToken tc) = true ->
  tc_refreshExpiresAt tc = Some (Int r) ->
  r <> 0 ->
  expired_at w (Int r) 0 = true ->
  getSession P config w = (Ok None, w).
Proof.
  intros tc Hvalid Hrt Hr Hnz Hexp.
  rewrite getSession_not_valid by done. fold tc.
  rewrite try_refresh_eq, Hrt.
  unfold refresh_known_expired. rewrite Hr, Hexp. cbn.
  by destruct (Z.eqb_spec r 0).
Qed.


(** C10, as amended: with an access token stored and no access expiry
    stored, [getSession] never takes the access-valid branch and runs the
    code that follows an expired access token: null without a request when
    no refresh token is stored or when the stored refresh expiry is known to
    be in the past, and a refresh attempt (which sends a request) otherwise. *)
Theorem getSession_access_expiry_absent (config : KeycloakConfig) (w : World) :
  let prefix := cookie_prefix config in
  let tc := stored_tokens prefix (cookieStore w) in
  truthy_str (tc_accessToken tc) = true ->
  tc_expiresAt tc = None ->
  access_valid w tc (refresh_margin config) = false /\
  getSession P config w = try_refresh P config prefix tc w /\
  (truthy_str (tc_refreshToken tc) = false -> getSession P config w = (Ok None, w)) /\
  (truthy_str (tc_refreshToken tc) = true -> refresh_known_expired w tc = true ->
   getSession P config w = (Ok None, w)) /\
  (truthy_str (tc_refreshToken tc) = true -> refresh_known_expired w tc = false ->
   getSession P config w =
     try_catch (refreshed_session P config prefix (nullish (tc_refreshToken tc) ""))
       (fun _ => mret None) w /\
   (length (netlog w) < length (netlog (getSession P config w).2))%nat).
Proof.
  intros prefix tc Hat Hexp.
  assert (Hvalid : access_valid w tc (refresh_margin config) = false).
  { unfold access_valid. by rewrite Hexp, andb_false_r. }
  assert (Hrun : getSession P config w = try_refresh P config prefix tc w)
    by by apply getSession_not_valid.
  split; [done|]. split; [done|].
  rewrite Hrun, try_refresh_eq.
  split; [by intros ->|]. split; [by intros -> ->|].
  intros -> ->. split; [done|]. apply refresh_attempt_sends.
Qed.

Lemma buildSession_tokens access id e r client session :
  buildSession P access id e r client = Ok session ->
  accessToken session = access /\ idToken session = nullish id access.
Proof.
  unfold buildSession, mbind, Result_bind, mret, Result_ret.
  destruct (decodeToken P _) as [claims|]; [|done].
  destruct (if truthy_str id then _ else _) as [accessClaims|]; [|done].
  destruct (extractUser _ _) as [user|]; [|done].
  by intros [= <-].
Qed.

(** Every session that [getSession] returns was made by [buildSession],
    from the stored tokens or from the refreshed ones. *)
Lemma getSession_built config w w' session :
  getSession P config w = (Ok (Some session), w') ->
  exists (access : string) (id : option string) (e r : option jsnum),
    buildSession P access id e r (clientId config) = Ok session.
Proof.
  rewrite getSession_eq. cbv zeta.
  destruct (negb _ && negb _); [done|].
  destruct (access_valid _ _ _).
  - destruct (buildSession _ _ _ _ _ _) as [s|] eqn:Hbuild; [|done].
    intros [= <- <-]. eauto.
  - rewrite try_refresh_eq.
    destruct (truthy_str _); [|done]. destruct (refresh_known_expired _ _); [done|].
    unfold try_catch, refreshed_session. rewrite bind_run.
    destruct (refreshAccessToken _ _ _ _) as [[newTokens|] w1]; [|done].
    rewrite bind_run, setTokenCookies_eq, bind_run. unfold lift.
    destruct (buildSession _ _ _ _ _ _) as [s|] eqn:Hbuild; [|done].
    intros [= <- <-]. eauto.
Qed.

(** C9: the [idToken] field of a session that [getSession] returns is the
    id token the session was built with, or the access token when there was
    none, so that it always holds a string; a session built from the stored
    credentials (the access-valid branch) when no id-token cookie is stored
    has its [idToken] equal to its [accessToken]. *)
Theorem getSession_idToken_fallback (config : KeycloakConfig) (w w' : World)
    (session : KeycloakSession) :
  let tc := stored_tokens (cookie_prefix config) (cookieStore w) in
  getSession P config w = (Ok (Some session), w') ->
  (exists (id : option string) (e r : option jsnum),
     buildSession P (accessToken session) id e r (clientId config) = Ok session /\
     idToken session = nullish id (accessToken session)) /\
  (access_valid w tc (refresh_margin config) = true ->
   tc_accessToken tc = Some (accessToken session) /\
   idToken session = nullish (tc_idToken tc) (accessToken session) /\
   (tc_idToken tc = None -> idToken session = accessToken session)).
Proof.
  intros tc Hrun. split.
  - destruct (getSession_built _ _ _ _ Hrun) as (access & id & e & r & Hbuild).
    destruct (buildSession_tokens _ _ _ _ _ _ Hbuild) as [Ha Hi].
    exists id, e, r. by rewrite Ha, Hi.
  - intros Hvalid. revert Hrun. rewrite getSession_eq. fold tc. rewrite Hvalid.
    assert (Hat : truthy_str (tc_accessToken tc) = true).
    { unfold access_valid in Hvalid. by apply andb_prop in Hvalid as [? _]. }
    rewrite Hat. cbn [negb andb].
    destruct (buildSession _ _ _ _ _ _) as [s|] eqn:Hbuild; [|done].
    intros [= <- <-]. apply buildSession_tokens in Hbuild as [Ha Hi].
    destruct (tc_accessToken tc) as [at_|]; [|done]. cbn [nullish] in Ha.
    rewrite Hi, Ha. split; [done|]. split; [done|]. by intros ->.
Qed.

Lemma mergedClaims_union (claims accessClaims : gmap string json) :
  mergedClaims claims accessClaims = claims ∪ accessClaims.
Proof.
  unfold mergedClaims, spread. apply map_eq. intros k.
  rewrite !lookup_union, lookup_empty.
  by destruct (claims !! k), (accessClaims !! k).
Qed.

Lemma mergedClaims_lookup (claims accessClaims : gmap string json) (k : string) :
  mergedClaims claims accessClaims !! k =
  match claims !! k with
  | Some v => Some v
  | None => accessClaims !! k
  end.
Proof.
  rewrite mergedClaims_union, lookup_union.
  by destruct (claims !! k), (accessClaims !! k).
Qed.

Lemma extractUser_raw_claims claims clientId user :
  extractUser claims clientId = Ok user -> raw_claims user = claims.
Proof.
  unfold extractUser, mbind, Result_bind, mret, Result_ret.
  destruct (iterate _); [|done]. destruct (iterate _); [|done]. by intros [= <-].
Qed.

Lemma buildSession_merge access id e r client session :
  id <> "" ->
  buildSession P access (Some id) e r client = Ok session ->
  exists idClaims accessClaims : gmap string json,
    decodeToken P id = Ok idClaims /\
    decodeToken P access = Ok accessClaims /\
    extractUser (mergedClaims idClaims accessClaims) client = Ok (user session).
Proof.
  intros Hne. unfold buildSession, mbind, Result_bind, mret, Result_ret. cbn [nullish].
  destruct (decodeToken P id) as [claims|]; [|done].
  assert (truthy_str (Some id) = true) as -> by by destruct id.
  destruct (decodeToken P access) as [accessClaims|]; [|done].
  destruct (extractUser _ _) as [user|] eqn:Huser; [|done].
  intros [= <-]. by exists claims, accessClaims.
Qed.

(** C7: a session that [getSession] builds from a stored access token and a
    stored (non-empty) id token has a user extracted from one map, the merge
    of the two decoded claim maps: every key of the id token keeps the value
    of the id token, every other key has the value of the access token, and
    the merge is the single spread of the id-token claims over the
    access-token claims. *)
Theorem getSession_merges_claims (config : KeycloakConfig) (w w' : World)
    (session : KeycloakSession) (idt : string) :
  let tc := stored_tokens (cookie_prefix config) (cookieStore w) in
  access_valid w tc (refresh_margin config) = true ->
  tc_idToken tc = Some idt ->
  idt <> "" ->
  getSession P config w = (Ok (Some session), w') ->
  exists idClaims accessClaims : gmap string json,
    decodeToken P idt = Ok idClaims /\
    tc_accessToken tc = Some (accessToken session) /\
    decodeToken P (accessToken session) = Ok accessClaims /\
    extractUser (mergedClaims idClaims accessClaims) (clientId config) = Ok (user session) /\
    raw_claims (user session) = mergedClaims idClaims accessClaims /\
    (forall k v, idClaims !! k = Some v ->
                 mergedClaims idClaims accessClaims !! k = Some v) /\
    (forall k, idClaims !! k = None ->
               mergedClaims idClaims accessClaims !! k = accessClaims !! k) /\
    mergedClaims idClaims accessClaims = spread accessClaims idClaims.
Proof.
  intros tc Hvalid Hid Hne. rewrite getSession_eq. fold tc. rewrite Hvalid, Hid.
  assert (Hat : truthy_str (tc_accessToken tc) = true).
  { unfold access_valid in Hvalid. by apply andb_prop in Hvalid as [? _]. }
  rewrite Hat. cbn [negb andb].
  destruct (buildSession _ _ _ _ _ _) as [s|] eqn:Hbuild; [|done].
  intros [= <- <-].
  pose proof (buildSession_tokens _ _ _ _ _ _ Hbuild) as [Ha _].
  destruct (buildSession_merge _ _ _ _ _ _ Hne Hbuild)
    as (idClaims & accessClaims & Hd1 & Hd2 & Huser).
  exists idClaims, accessClaims.
  destruct (tc_accessToken tc) as [at_|]; [|done]. cbn [nullish] in Ha, Hd2. subst at_.
  split; [done|]. split; [done|]. split; [done|]. split; [done|].
  split; [by apply extractUser_raw_claims in Huser|].
  split; [intros k v Hk; by rewrite mergedClaims_lookup, Hk|].
  split; [intros k Hk; by rewrite mergedClaims_lookup, Hk|].
  by rewrite mergedClaims_union.
Qed.

End Session.

(** ** The callback handler *)

Section Callback.
Context (P : Platform).

(** Every run of the code-for-tokens exchange sends a request. *)
Lemma exchangeCodeForTokens_sends config code codeVerifier redirectUri w :
  netlog (exchangeCodeForTokens P config code codeVerifier redirectUri w).2 <> netlog w.
Proof.
  destruct (exchangeCodeForTokens P config code codeVerifier redirectUri w) as [r w'] eqn:Hrun.
  apply exchangeCodeForTokens_run in Hrun as (_ & _ & Hlog). cbn. intros Heq.
  rewrite Heq in Hlog. lia.
Qed.

(** The handler past the checks of [error] and [code]. *)
Lemma callbackHandler_checked config request w :
  let prefix := cookie_prefix config in
  let pkce := stored_pkce prefix (cookieStore w) in
  let code := searchParams_get "code" (searchParams request) in
  let state := searchParams_get "state" (searchParams request) in
  truthy_str (searchParams_get "error" (searchParams request)) = false ->
  truthy_str code = true ->
  callbackHandler P config request w =
  if negb (truthy_str state) || negb (truthy_str (pk_state pkce)) ||
     negb (bool_decide (state = pk_state pkce))
  then (Ok (Json {[ "error" := JStr "Invalid state parameter — possible CSRF attack" ]} 403), w)
  else if negb (truthy_str (pk_codeVerifier pkce))
  then (Ok (Json {[ "error" := JStr "Missing PKCE code verifier — session may have expired" ]}
              400), w)
  else try_catch
         (exchange_and_store P config prefix (origin request) (nullish code "")
            (callback_redirectUri config request) pkce)
         (fun err =>
            console_error "[keycloak-lib] Token exchange failed:" err;;
            mret (Json {[ "error" := JStr "Token exchange failed";
                          "message" := JStr (err_message err) ]} 500)) w.
Proof.
  intros prefix pkce code state Herror Hcode. unfold callbackHandler.
  rewrite Herror. fold code. rewrite Hcode. cbn [negb].
  fold (cookie_prefix config). fold prefix.
  unfold mbind at 1. unfold M_bind at 1. rewrite getPKCECookies_eq. fold pkce state.
  destruct (negb (truthy_str state) || negb (truthy_str (pk_state pkce)) ||
            negb (bool_decide (state = pk_state pkce))); [done|].
  by destruct (negb (truthy_str (pk_codeVerifier pkce))).
Qed.

(** A callback without [error] whose [code] is absent or empty is answered
    400 before the state is looked at; the world is left as it was. *)
Lemma callbackHandler_missing_code config request w :
  truthy_str (searchParams_get "error" (searchParams request)) = false ->
  truthy_str (searchParams_get "code" (searchParams request)) = false ->
  callbackHandler P config request w =
    (Ok (Json {[ "error" := JStr "Missing authorization code" ]} 400), w).
Proof. intros Herror Hcode. unfold callbackHandler. by rewrite Herror, Hcode. Qed.

(** C1: a callback without an [error] parameter and with a (non-empty)
    [code], whose [state] parameter is absent, or whose stored state is
    absent, or whose state differs from the stored one, is answered with the
    403 of the CSRF check, and the world is left as it was: nothing is
    written and no request is sent, whereas every run of the code-for-tokens
    exchange sends one. *)
Theorem callbackHandler_csrf_rejected (config : KeycloakConfig) (request : NextRequest)
    (w : World) :
  let state := searchParams_get "state" (searchParams request) in
  let stored := pk_state (stored_pkce (cookie_prefix config) (cookieStore w)) in
  truthy_str (searchParams_get "error" (searchParams request)) = false ->
  truthy_str (searchParams_get "code" (searchParams request)) = true ->
  state = None \/ stored = None \/ state <> stored ->
  callbackHandler P config request w =
    (Ok (Json {[ "error" := JStr "Invalid state parameter — possible CSRF attack" ]} 403), w) /\
  (forall code codeVerifier redirectUri w0,
     netlog (exchangeCodeForTokens P config code codeVerifier redirectUri w0).2 <> netlog w0).
Proof.
  intros state stored Herror Hcode Hstate.
  split; [|intros; apply exchangeCodeForTokens_sends].
  rewrite callbackHandler_checked by done. fold state stored.
  destruct Hstate as [-> | [-> | Hne]]; [done | by rewrite orb_true_r |].
  rewrite bool_decide_eq_false_2 by done. by rewrite orb_true_r.
Qed.

(** The exact condition of the CSRF rejection. *)
Lemma callbackHandler_state_accepted config request w :
  let state := searchParams_get "state" (searchParams request) in
  let stored := pk_state (stored_pkce (cookie_prefix config) (cookieStore w)) in
  negb (truthy_str state) || negb (truthy_str stored) || negb (bool_decide (state = stored))
    = false <->
  exists s : string, s <> "" /\ state = Some s /\ stored = Some s.
Proof.
  intros state stored. split.
  - intros [[Hs _]%orb_false_elim Heq]%orb_false_elim.
    apply negb_false_iff, bool_decide_eq_true in Heq. apply negb_false_iff in Hs.
    destruct state as [[|c s]|]; try done. by exists (String c s).
  - intros (s & Hs & -> & ->). rewrite bool_decide_eq_true_2 by done. by destruct s.
Qed.


End Callback.

(** ** Discovery *)

Section Discovery.
Context (P : Platform).

(** A document is accepted only if the response is 2xx, its body is JSON
    and every required field is truthy. *)
Lemma read_discovery_accepts wellKnown response endpoints :
  read_discovery wellKnown response = Ok endpoints ->
  ok response = true /\
  exists doc : json,
    body_json response = Some doc /\
    forall field, field ∈ required_names -> truthy (doc_field doc field) = true.
Proof.
  unfold read_discovery. destruct (ok response); [|done]. cbn [negb].
  unfold response_json. destruct (body_json response) as [doc|]; [|done].
  intros Hread. split; [done|]. exists doc. split; [done|].
  unfold mbind, Result_bind in Hread. cbn beta iota in Hread.
  destruct doc as [| b | n | s | items | fields]; cbn in Hread; try done.
  cbn [doc_field].
  destruct (truthy (fields !! "authorization_endpoint")) eqn:H1; [|done].
  destruct (truthy (fields !! "token_endpoint")) eqn:H2; [|done].
  destruct (truthy (fields !! "end_session_endpoint")) eqn:H3; [|done].
  destruct (truthy (fields !! "jwks_uri")) eqn:H4; [|done].
  destruct (truthy (fields !! "issuer")) eqn:H5; [|done].
  intros field Hin. unfold required_names in Hin. cbn in Hin.
  repeat (apply elem_of_cons in Hin as [-> | Hin]; [done|]).
  by apply elem_of_nil in Hin.
Qed.

(** Whenever [discoverEndpoints] throws, the cache is the one it started
    from. *)
Lemma discoverEndpoints_throw_cache url realm w e w' :
  discoverEndpoints P url realm w = (Throw e, w') -> cache w' = cache w.
Proof.
  intros Hrun. apply discoverEndpoints_run in Hrun as (_ & _ & _ & Hthrow).
  by destruct (Hthrow e eq_refl).
Qed.

(** C8: when [discoverEndpoints] goes to the network (no live cache entry)
    and the response is not 2xx, or a required field is absent from the
    parsed document, the call throws and the cache is the one it started
    from. *)
Theorem discoverEndpoints_failure_not_cached (url realm : string) (w : World)
    (response : Response) :
  cache_miss w (url +:+ ":" +:+ realm) ->
  reply (network P (netlog w)
           {| fr_input := Some (JStr (wellKnownUrl url realm)); fr_init := None |})
    = Replied response ->
  ok response = false \/
  (exists (doc : json) (field : string),
     body_json response = Some doc /\ field ∈ required_names /\ doc_field doc field = None) ->
  exists (e : JsError) (w' : World),
    discoverEndpoints P url realm w = (Throw e, w') /\ cache w' = cache w.
Proof.
  intros Hmiss Hreply Hbad.
  assert (Hfetch : discoverEndpoints P url realm w =
                   discover_fetch P url realm (url +:+ ":" +:+ realm) w).
  { rewrite discoverEndpoints_eq. unfold cache_miss in Hmiss.
    destruct (cache w !! _) as [entry|]; [|done].
    destruct (Z.ltb_spec (clock w) (ce_expiresAt entry)); [lia | done]. }
  destruct (discoverEndpoints P url realm w) as [[endpoints|e] w'] eqn:Hrun.
  - exfalso. symmetry in Hfetch. rewrite discover_fetch_eq in Hfetch. cbv zeta in Hfetch.
    rewrite Hreply in Hfetch.
    destruct (read_discovery _ response) as [endpoints'|] eqn:Hread; [|done].
    apply read_discovery_accepts in Hread as (Hok & doc & Hdoc & Hfields).
    destruct Hbad as [Hbad | (doc' & field & Hdoc' & Hin & Habsent)]; [congruence|].
    assert (doc' = doc) as -> by congruence.
    specialize (Hfields field Hin). by rewrite Habsent in Hfields.
  - exists e, w'. split; [done|]. by eapply discoverEndpoints_throw_cache.
Qed.

End Discovery.

(** ** Runs on the sample worlds *)

Section Runs.
Import Sample.

(** Both stored tokens have lapsed. *)
Lemma getSession_refresh_expired_witness :
  getSession (platform unreachable) config stale = (Ok None, stale).
Proof.
  apply (getSession_refresh_expired (platform unreachable) config stale 1000).
  - reflexivity.
  - reflexivity.
  - reflexivity.
  - lia.
  - reflexivity.
Defined.

(** C2 as stated fails: with the stored refresh expiry 0, a timestamp in
    the past for which [isTokenExpired(0, 0)] is true, [getSession] does not
    stop: it tries the refresh and sends a request. *)
Lemma getSession_refresh_expiry_zero_counterexample :
  ~ (forall (P : Platform) (config : KeycloakConfig) (w : World),
       let tc := stored_tokens (cookie_prefix config) (cookieStore w) in
       access_missing_or_expired w tc (refresh_margin config) ->
       truthy_str (tc_refreshToken tc) = true ->
       (exists e, tc_refreshExpiresAt tc = Some e /\ expired_at w e 0 = true) ->
       exists w', getSession P config w = (Ok None, w') /\
                  netlog w' = netlog w /\ cookieStore w' = cookieStore w).
Proof.
  intros Hclaim.
  destruct (Hclaim (platform unreachable) config epoch) as (w' & Hrun & Hlog & _).
  - left. reflexivity.
  - reflexivity.
  - exists (Int 0). split; reflexivity.
  - vm_compute in Hrun. injection Hrun as <-. vm_compute in Hlog. discriminate.
Qed.


(** Without the expiry cookie the resolver goes to the refresh part. *)
Lemma getSession_access_expiry_absent_witness :
  getSession (platform provider) config undated =
  try_refresh (platform provider) config "kc" (stored_tokens "kc" (cookieStore undated))
    undated.
Proof.
  destruct (getSession_access_expiry_absent (platform provider) config undated)
    as (_ & Hrun & _).
  - reflexivity.
  - reflexivity.
  - exact Hrun.
Defined.

(** C10 as stated fails: an access token without its expiry cookie next to
    a refresh token whose stored expiry is in the past gives null with no
    refresh attempt, although a refresh token is present. *)
Lemma getSession_access_expiry_absent_counterexample :
  ~ (forall (P : Platform) (config : KeycloakConfig) (w : World),
       let tc := stored_tokens (cookie_prefix config) (cookieStore w) in
       truthy_str (tc_accessToken tc) = true ->
       tc_expiresAt tc = None ->
       (truthy_str (tc_refreshToken tc) = true ->
        (length (netlog w) < length (netlog (getSession P config w).2))%nat) /\
       (truthy_str (tc_refreshToken tc) = false -> getSession P config w = (Ok None, w))).
Proof.
  intros Hclaim.
  destruct (Hclaim (platform provider) config undated_stale) as [Hattempt _].
  - reflexivity.
  - reflexivity.
  - specialize (Hattempt eq_refl). vm_compute in Hattempt. lia.
Qed.

(** A live access token without an id-token cookie. *)
Lemma getSession_idToken_fallback_witness :
  exists session : KeycloakSession,
    getSession (platform provider) config access_only = (Ok (Some session), access_only) /\
    idToken session = accessToken session.
Proof.
  destruct (getSession (platform provider) config access_only)
    as [[[session|]|] w'] eqn:Hrun; try (vm_compute in Hrun; discriminate).
  assert (w' = access_only) as -> by (vm_compute in Hrun; by injection Hrun as _ <-).
  exists session. split; [reflexivity|].
  destruct (getSession_idToken_fallback (platform provider) config access_only access_only
              session Hrun) as (_ & Hstored).
  destruct Hstored as (_ & _ & Hid).
  - reflexivity.
  - apply Hid. reflexivity.
Defined.

(** A live access token next to an id token: [aud] is in both tokens,
    [realm_access] only in the access token. *)
Lemma getSession_merges_claims_witness :
  exists session : KeycloakSession,
    getSession (platform provider) config signed_in = (Ok (Some session), signed_in) /\
    raw_claims (user session) !! "aud" = Some (JStr "app") /\
    raw_claims (user session) !! "realm_access" = access_claims !! "realm_access".
Proof.
  destruct (getSession (platform provider) config signed_in)
    as [[[session|]|] w'] eqn:Hrun; try (vm_compute in Hrun; discriminate).
  assert (w' = signed_in) as -> by (vm_compute in Hrun; by injection Hrun as _ <-).
  exists session. split; [reflexivity|].
  destruct (getSession_merges_claims (platform provider) config signed_in signed_in session
              "id.jwt")
    as (idClaims & accessClaims & Hid & _ & Hat & _ & -> & Hwins & Hfills & _).
  - reflexivity.
  - reflexivity.
  - discriminate.
  - exact Hrun.
  - assert (idClaims = id_claims) as -> by (vm_compute in Hid; by injection Hid as <-).
    assert (accessClaims = access_claims) as ->.
    { assert (accessToken session = "access.jwt") as Hs
        by (vm_compute in Hrun; by injection Hrun as <-).
      rewrite Hs in Hat. vm_compute in Hat. by injection Hat as <-. }
    split; [by apply Hwins | by apply Hfills].
Defined.
(** A forged state. *)
Lemma callbackHandler_csrf_rejected_witness :
  callbackHandler (platform provider) config (callback [("code", "c"); ("state", "forged")])
    pending
  = (Ok (Json {[ "error" := JStr "Invalid state parameter — possible CSRF attack" ]} 403),
     pending).
Proof.
  apply (callbackHandler_csrf_rejected (platform provider) config
           (callback [("code", "c"); ("state", "forged")]) pending).
  - reflexivity.
  - reflexivity.
  - right. right. discriminate.
Defined.



(** A discovery document without [jwks_uri]. *)
Lemma discoverEndpoints_failure_not_cached_witness :
  exists (e : JsError) (w' : World),
    discoverEndpoints (platform incomplete) "https://idp.test" "demo" (world [])
      = (Throw e, w') /\
    cache w' = cache (world []).
Proof.
  eapply (discoverEndpoints_failure_not_cached (platform incomplete)).
  - exact I.
  - reflexivity.
  - right. eexists _, "jwks_uri". split; [reflexivity|]. split; [|reflexivity].
    repeat constructor.
Defined.

(** The scenario of a successful login: the callback stores the tokens with
    the access expiry at now + 300 and redirects to the stored returnTo. *)
Example callbackHandler_success_run :
  exists w' : World,
    callbackHandler (platform provider) config (callback [("code", "c"); ("state", "s")])
      pending
    = (Ok (Redirect {| href := "https://app.test/home"; query := [] |}), w') /\
    c_value <$> cookieStore w' !! "kc_exp" = Some "1700000300" /\
    c_value <$> cookieStore w' !! "kc_rexp" = Some "1700001800" /\
    length (netlog w') = 2%nat.
Proof. eexists. split; [vm_compute; reflexivity|]. repeat split. Qed.

(** The scenario of a refresh: one discovery request and one token request,
    and the new access expiry is later than the stored one. *)
Example getSession_refresh_run :
  exists (session : KeycloakSession) (w' : World),
    getSession (platform provider) config refreshable = (Ok (Some session), w') /\
    accessTokenExpiresAt session = Int 1700000300 /\
    c_value <$> cookieStore w' !! "kc_exp" = Some "1700000300" /\
    length (netlog w') = 2%nat.
Proof. eexists _, _. split; [vm_compute; reflexivity|]. repeat split. Qed.

End Runs.


(** ** PKCE: the text of a verifier *)

Module PkceText.
Import Pkce PkceFacts.

Lemma all_chars_impl (p q : ascii -> bool) (s : string) :
  (forall c, p c = true -> q c = true) -> all_chars p s = true -> all_chars q s = true.
Proof.
  intros Hpq. induction s as [|c s IH]; simpl; [done|].
  intros [Hc Hs]%andb_prop. by rewrite (Hpq c Hc), (IH Hs).
Qed.

Lemma sextet_index (n : N) : (N.to_nat (N.land n 63) < 64)%nat.
Proof.
  change 63%N with (N.ones 6). rewrite N.land_ones.
  pose proof (N.mod_upper_bound n (2 ^ 6)%N). change (2 ^ 6)%N with 64%N in *. lia.
Qed.

Lemma sextet_char_base64 (n : N) : base64_char (sextet_char n) = true.
Proof.
  unfold sextet_char. pose proof (sextet_index n) as Hlt.
  revert Hlt. generalize (N.to_nat (N.land n 63)). intros i Hi.
  assert (Hall : forallb (fun i => base64_char (nullish (String.get i alphabet) "A"%char))
                   (seq 0 64) = true) by (vm_compute; reflexivity).
  rewrite forallb_forall in Hall. apply Hall, in_seq. lia.
Qed.

(** Reading back the character written for a sextet. *)
Lemma sextet_of_url_char (n : N) :
  sextet_of (url_char (sextet_char n)) = (n mod 64)%N.
Proof.
  unfold sextet_char.
  assert (Hn : (n mod 64)%N = N.of_nat (N.to_nat (N.land n 63))).
  { change 63%N with (N.ones 6). rewrite N.land_ones. change (2 ^ 6)%N with 64%N. lia. }
  rewrite Hn. pose proof (sextet_index n) as Hlt.
  revert Hlt. generalize (N.to_nat (N.land n 63)). intros i Hi.
  assert (Hall : forallb (fun i => N.eqb (sextet_of (url_char (nullish (String.get i alphabet)
                                                                   "A"%char))) (N.of_nat i))
                   (seq 0 64) = true) by (vm_compute; reflexivity).
  rewrite forallb_forall in Hall. apply N.eqb_eq, Hall, in_seq. lia.
Qed.

Lemma btoa_unpadded (n : nat) : forall s : string,
  (String.length s < n)%nat ->
  exists pad : string, btoa s = unpadded s +:+ pad /\ all_chars is_pad pad = true.
Proof.
  induction n as [|n IH]; intros s Hs; [lia|].
  destruct s as [|a [|b [|c rest]]].
  - by exists "".
  - by exists "==".
  - by exists "=".
  - destruct (IH rest) as (pad & Hb & Hpad); [simpl in Hs; lia|].
    exists pad. split; [|done].
    change (btoa (String a (String b (String c rest)))) with
      (let g := group24 a b c in
       String (sextet 3 g) (String (sextet 2 g)
         (String (sextet 1 g) (String (sextet 0 g) (btoa rest))))).
    cbv zeta. by rewrite Hb.
Qed.

Lemma unpadded_base64 (n : nat) : forall s : string,
  (String.length s < n)%nat -> all_chars base64_char (unpadded s) = true.
Proof.
  induction n as [|n IH]; intros s Hs; [lia|].
  destruct s as [|a [|b [|c rest]]]; cbn [unpadded all_chars]; cbv zeta;
    unfold sextet; rewrite ?sextet_char_base64; try done.
  cbn [andb]. apply IH. cbn [String.length] in Hs. lia.
Qed.

Lemma replace_twice (s : string) :
  replace_all "/" "_" (replace_all "+" "-" s) = map_chars url_char s.
Proof. induction s as [|c s IH]; cbn [replace_all map_chars]; [done | by rewrite IH]. Qed.

Lemma base64_not_pad (c : ascii) : base64_char c = true -> not_pad c = true.
Proof. destruct c as [[] [] [] [] [] [] [] []]; vm_compute; congruence. Qed.

Lemma base64_url_safe (c : ascii) : base64_char c = true -> url_safe (url_char c) = true.
Proof. destruct c as [[] [] [] [] [] [] [] []]; vm_compute; congruence. Qed.

Lemma all_chars_map (p q : ascii -> bool) (f : ascii -> ascii) (s : string) :
  (forall c, p c = true -> q (f c) = true) ->
  all_chars p s = true -> all_chars q (map_chars f s) = true.
Proof.
  intros Hpq. induction s as [|c s IH]; cbn [all_chars map_chars]; [done|].
  intros [Hc Hs]%andb_prop. by rewrite (Hpq c Hc), (IH Hs).
Qed.

(** [base64UrlEncode] writes the unpadded text with "+" and "/" replaced. *)
Lemma base64UrlEncode_unpadded (buffer : list byte) :
  base64UrlEncode buffer = map_chars url_char (unpadded (binary_of buffer)).
Proof.
  unfold base64UrlEncode.
  destruct (btoa_unpadded (S (String.length (binary_of buffer))) (binary_of buffer))
    as (pad & -> & Hpad); [lia|].
  pose proof (unpadded_base64 (S (String.length (binary_of buffer))) (binary_of buffer)
                ltac:(lia)) as Hbody.
  rewrite !replace_all_app, !(replace_all_pad _ _ pad) by done.
  rewrite strip_trailing_body; [apply replace_twice | | done].
  repeat apply replace_all_not_pad; try done.
  eapply all_chars_impl; [apply base64_not_pad | done].
Qed.

Lemma binary_of_head (buffer : list byte) (c : ascii) (acc : string) :
  fold_left (fun binary b => binary +:+ String (ascii_of_byte b) "") buffer (String c acc)
  = String c (fold_left (fun binary b => binary +:+ String (ascii_of_byte b) "") buffer acc).
Proof.
  revert acc. induction buffer as [|b buffer IH]; intros acc; cbn [fold_left]; [done|].
  change (String c acc +:+ ?x) with (String c (acc +:+ x)). apply IH.
Qed.

Lemma binary_of_cons (b : byte) (buffer : list byte) :
  binary_of (b :: buffer) = String (ascii_of_byte b) (binary_of buffer).
Proof. unfold binary_of. cbn [fold_left]. apply binary_of_head. Qed.

Lemma byte_of_N_ascii (a : ascii) : byte_of_N (N_of_ascii a) = byte_of_ascii a.
Proof. unfold byte_of_N. by rewrite ascii_N_embedding. Qed.

Lemma divmod_unique (x d q r : N) :
  (r < d -> x = d * q + r -> x / d = q /\ x mod d = r)%N.
Proof.
  intros Hr Hx. split; symmetry.
  - by apply (N.div_unique x d q r).
  - by apply (N.mod_unique x d q r).
Qed.

(** The three bytes of a group read back from its four sextets. *)
Lemma group24_bytes (a b c : ascii) :
  let g := group24 a b c in
  let p := (N.shiftr g 18 mod 64)%N in
  let q := (N.shiftr g 12 mod 64)%N in
  let r := (N.shiftr g 6 mod 64)%N in
  let s := (N.shiftr g 0 mod 64)%N in
  (4 * p + q / 16 = N_of_ascii a /\ 16 * (q mod 16) + r / 4 = N_of_ascii b /\
   64 * (r mod 4) + s = N_of_ascii c)%N.
Proof.
  unfold group24. pose proof (N_ascii_bounded a) as HA. pose proof (N_ascii_bounded b) as HB.
  pose proof (N_ascii_bounded c) as HC.
  rewrite !N.shiftl_mul_pow2, !N.shiftr_div_pow2.
  change (2 ^ 16)%N with 65536%N. change (2 ^ 8)%N with 256%N.
  change (2 ^ 18)%N with 262144%N. change (2 ^ 12)%N with 4096%N.
  change (2 ^ 6)%N with 64%N. change (2 ^ 0)%N with 1%N.
  cbv zeta. revert HA HB HC.
  generalize (N_of_ascii a) (N_of_ascii b) (N_of_ascii c). intros A B C HA HB HC.
  pose proof (N.div_mod A 4 ltac:(done)) as Ha. pose proof (N.mod_upper_bound A 4 ltac:(done)).
  pose proof (N.div_mod B 16 ltac:(done)) as Hb. pose proof (N.mod_upper_bound B 16 ltac:(done)).
  pose proof (N.div_mod C 64 ltac:(done)) as Hc. pose proof (N.mod_upper_bound C 64 ltac:(done)).
  revert Ha Hb Hc H H0 H1.
  generalize (A / 4)%N (A mod 4)%N (B / 16)%N (B mod 16)%N (C / 64)%N (C mod 64)%N.
  intros a1 a0 b1 b0 c1 c0 -> -> -> Ha0 Hb0 Hc0.
  set (g := ((4 * a1 + a0) * 65536 + (16 * b1 + b0) * 256 + (64 * c1 + c0))%N).
  destruct (divmod_unique g 262144 a1 (a0 * 65536 + (16 * b1 + b0) * 256 + (64 * c1 + c0)))
    as [-> _]; [lia | subst g; lia |].
  destruct (divmod_unique a1 64 0 a1) as [_ ->]; [lia | lia |].
  destruct (divmod_unique g 4096 (16 * (4 * a1 + a0) + b1) (b0 * 256 + (64 * c1 + c0)))
    as [-> _]; [lia | subst g; lia |].
  destruct (divmod_unique (16 * (4 * a1 + a0) + b1) 64 a1 (16 * a0 + b1)) as [_ ->];
    [lia | lia |].
  destruct (divmod_unique g 64 (1024 * (4 * a1 + a0) + 4 * (16 * b1 + b0) + c1) c0)
    as [-> _]; [lia | subst g; lia |].
  destruct (divmod_unique (1024 * (4 * a1 + a0) + 4 * (16 * b1 + b0) + c1) 64
              (16 * (4 * a1 + a0) + b1) (4 * b0 + c1)) as [_ ->]; [lia | lia |].
  destruct (divmod_unique g 1 g 0) as [-> _]; [lia | lia |].
  destruct (divmod_unique g 64 (1024 * (4 * a1 + a0) + 4 * (16 * b1 + b0) + c1) c0)
    as [_ ->]; [lia | subst g; lia |].
  destruct (divmod_unique (16 * a0 + b1) 16 a0 b1) as [-> ->]; [lia | lia |].
  destruct (divmod_unique (4 * b0 + c1) 4 b0 c1) as [-> ->]; [lia | lia |].
  lia.
Qed.

Lemma decode_unpadded (n : nat) : forall buffer : list byte,
  (length buffer < n)%nat ->
  base64UrlDecode (map_chars url_char (unpadded (binary_of buffer))) = buffer.
Proof.
  induction n as [|n IH]; intros buffer Hn; [lia|].
  destruct buffer as [|x [|y [|z rest]]]; [done | | |]; rewrite !binary_of_cons.
  - change (binary_of []) with "". cbn [unpadded map_chars base64UrlDecode]. cbv zeta.
    unfold sextet. rewrite !sextet_of_url_char.
    destruct (group24_bytes (ascii_of_byte x) zero zero) as (Ha & _).
    change (6 * 3)%N with 18%N. change (6 * 2)%N with 12%N.
    cbv zeta in Ha. rewrite Ha, byte_of_N_ascii. by rewrite byte_of_ascii_of_byte.
  - change (binary_of []) with "". cbn [unpadded map_chars base64UrlDecode]. cbv zeta.
    unfold sextet. rewrite !sextet_of_url_char.
    destruct (group24_bytes (ascii_of_byte x) (ascii_of_byte y) zero) as (Ha & Hb & _).
    change (6 * 3)%N with 18%N. change (6 * 2)%N with 12%N. change (6 * 1)%N with 6%N.
    cbv zeta in Ha, Hb. rewrite Ha, Hb, !byte_of_N_ascii. by rewrite !byte_of_ascii_of_byte.
  - cbn [unpadded map_chars base64UrlDecode]. cbv zeta.
    unfold sextet. rewrite !sextet_of_url_char.
    destruct (group24_bytes (ascii_of_byte x) (ascii_of_byte y) (ascii_of_byte z))
      as (Ha & Hb & Hc).
    change (6 * 3)%N with 18%N. change (6 * 2)%N with 12%N. change (6 * 1)%N with 6%N.
    change (6 * 0)%N with 0%N.
    cbv zeta in Ha, Hb, Hc. rewrite Ha, Hb, Hc, !byte_of_N_ascii, !byte_of_ascii_of_byte.
    rewrite IH; [done|]. cbn [length] in Hn. lia.
Qed.

Lemma base64UrlEncode_chars (buffer : list byte) :
  all_chars url_safe (base64UrlEncode buffer) = true.
Proof.
  rewrite base64UrlEncode_unpadded.
  apply (all_chars_map base64_char); [apply base64_url_safe|].
  apply (unpadded_base64 (S (String.length (binary_of buffer)))). lia.
Qed.

Lemma base64UrlDecode_encode (buffer : list byte) :
  base64UrlDecode (base64UrlEncode buffer) = buffer.
Proof. rewrite base64UrlEncode_unpadded. apply (decode_unpadded (S (length buffer))). lia. Qed.

Lemma getRandomValues_small (rng : nat -> byte) (len : nat) :
  (N.of_nat len <= 65536)%N ->
  getRandomValues rng len = Ok (map rng (seq 0 len)).
Proof.
  intros Hlen. unfold getRandomValues.
  by destruct (N.ltb_spec 65536 (N.of_nat len)) as [?|_]; [lia|].
Qed.

(** [base64UrlEncode] writes n bytes as exactly ceil(4n/3) characters, each
    a letter, a digit, "-" or "_": no "+", no "/" and no padding. *)
Theorem base64UrlEncode_url_safe (buffer : list byte) :
  String.length (base64UrlEncode buffer) = ((4 * length buffer + 2) / 3)%nat /\
  all_chars url_safe (base64UrlEncode buffer) = true.
Proof.
  split.
  - apply base64UrlEncode_length.
  - apply base64UrlEncode_chars.
Qed.

(** The text that [base64UrlEncode] writes reads back as the bytes it was
    given, so that no two byte strings have the same text. *)
Theorem base64UrlEncode_round_trip (buffer : list byte) :
  base64UrlDecode (base64UrlEncode buffer) = buffer /\
  (forall other : list byte, base64UrlEncode other = base64UrlEncode buffer -> other = buffer).
Proof.
  split; [apply base64UrlDecode_encode|].
  intros other Heq.
  rewrite <-(base64UrlDecode_encode other), Heq. apply base64UrlDecode_encode.
Qed.

(** [generateState()] never throws and returns 43 characters of base64url,
    whatever bytes the random source gives; two draws that differ in one of
    their 32 bytes give different states. *)
Theorem generateState_text (rng : nat -> byte) :
  exists state : string,
    generateState rng = Ok state /\
    String.length state = 43%nat /\ all_chars url_safe state = true /\
    (forall rng' : nat -> byte,
       generateState rng' = Ok state -> forall i : nat, (i < 32)%nat -> rng' i = rng i).
Proof.
  unfold generateState. rewrite getRandomValues_small by lia.
  eexists. split; [reflexivity|].
  split; [by rewrite base64UrlEncode_length, length_map, length_seq|].
  split; [apply base64UrlEncode_chars|].
  intros rng' Hsame i Hi. rewrite getRandomValues_small in Hsame by lia.
  assert (Htext : base64UrlEncode (map rng' (seq 0 32)) = base64UrlEncode (map rng (seq 0 32)))
    by congruence.
  apply (f_equal base64UrlDecode) in Htext. rewrite !base64UrlDecode_encode in Htext.
  assert (Hnth : forall f : nat -> byte, nth i (map f (seq 0 32)) x00%byte = f i).
  { intros f. rewrite (nth_indep _ x00%byte (f 0%nat)) by (rewrite length_map, length_seq; lia).
    rewrite map_nth, seq_nth by lia. done. }
  by rewrite <-(Hnth rng'), <-(Hnth rng), Htext.
Qed.

(** The challenge of a verifier is the base64url text of its SHA-256
    digest: for a digest of 32 bytes, 43 characters of base64url without
    padding (the form RFC 7636 gives for the method S256), from which the
    digest reads back. *)
Theorem generateCodeChallenge_s256 (H : Host) (verifier : string) :
  length (sha256 H (utf8 verifier)) = 32%nat ->
  String.length (generateCodeChallenge H verifier) = 43%nat /\
  all_chars url_safe (generateCodeChallenge H verifier) = true /\
  base64UrlDecode (generateCodeChallenge H verifier) = sha256 H (utf8 verifier).
Proof.
  intros Hlen. unfold generateCodeChallenge.
  split; [by rewrite base64UrlEncode_length, Hlen|].
  split; [apply base64UrlEncode_chars | apply base64UrlDecode_encode].
Qed.

(** [generatePKCEPair()] never throws: it returns a verifier of 86
    characters of base64url, inside the length range of RFC 7636, together
    with the challenge computed from that same verifier. *)
Theorem generatePKCEPair_shape (H : Host) :
  exists verifier : string,
    generatePKCEPair H = Ok (verifier, generateCodeChallenge H verifier) /\
    generateCodeVerifier (random_verifier H) None = Ok verifier /\
    String.length verifier = 86%nat /\ rfc7636_length verifier /\
    all_chars url_safe verifier = true.
Proof.
  unfold generatePKCEPair, generateCodeVerifier. cbn [nullish].
  rewrite getRandomValues_small by lia.
  eexists. split; [reflexivity|]. split; [reflexivity|].
  assert (Hlen : String.length (base64UrlEncode (map (random_verifier H) (seq 0 64))) = 86%nat)
    by by rewrite base64UrlEncode_length, length_map, length_seq.
  split; [done|]. split; [unfold rfc7636_length; lia | apply base64UrlEncode_chars].
Qed.

End PkceText.


(** ** Users and roles *)

Section Roles.

Lemma unique_from (items seen : list string) :
  NoDup seen ->
  let result := fold_left (fun seen x => if bool_decide (x ∈ seen) then seen else seen ++ [x])
                  items seen in
  NoDup result /\ (forall x, x ∈ result <-> x ∈ seen \/ x ∈ items).
Proof.
  revert seen. induction items as [|y items IH]; intros seen Hseen; cbn [fold_left].
  - split; [done|]. intros x. rewrite elem_of_nil. tauto.
  - destruct (decide (y ∈ seen)) as [Hin|Hout].
    + rewrite bool_decide_eq_true_2 by done.
      destruct (IH seen Hseen) as [Hnd Hmem]. split; [done|].
      intros x. rewrite Hmem, elem_of_cons. split; [tauto|]. intros [?|[->|?]]; tauto.
    + rewrite bool_decide_eq_false_2 by done.
      assert (Hnd' : NoDup (seen ++ [y])).
      { apply NoDup_app. split; [done|]. split; [|apply NoDup_singleton].
        intros x Hx ->%list_elem_of_singleton. done. }
      destruct (IH (seen ++ [y]) Hnd') as [Hnd Hmem]. split; [done|].
      intros x. rewrite Hmem, elem_of_app, list_elem_of_singleton, elem_of_cons. tauto.
Qed.

Lemma unique_spec (items : list string) :
  NoDup (unique items) /\ (forall x, x ∈ unique items <-> x ∈ items).
Proof.
  destruct (unique_from items [] (NoDup_nil_2)) as [Hnd Hmem]. split; [done|].
  intros x. unfold unique. rewrite Hmem, elem_of_nil. tauto.
Qed.

Lemma existsb_same_value (x : string) (seen : list string) :
  existsb (same_value (JStr x)) (JStr <$> seen) = bool_decide (x ∈ seen).
Proof.
  induction seen as [|y seen IH]; [done|].
  cbn [fmap list_fmap existsb same_value]. rewrite IH.
  destruct (String.eqb_spec x y) as [->|Hne].
  - cbn [orb]. symmetry. apply bool_decide_eq_true_2. left.
  - cbn [orb]. apply bool_decide_ext. rewrite elem_of_cons. split; [tauto|]. by intros [?|?].
Qed.

(** On strings [Set_of] is [unique]. *)
Lemma Set_of_strings_from (items seen : list string) :
  fold_left (fun seen x => if existsb (same_value x) seen then seen else seen ++ [x])
    (JStr <$> items) (JStr <$> seen)
  = JStr <$> fold_left (fun seen x => if bool_decide (x ∈ seen) then seen else seen ++ [x])
               items seen.
Proof.
  revert seen. induction items as [|y items IH]; intros seen; [done|].
  cbn [fmap list_fmap fold_left]. rewrite existsb_same_value.
  destruct (bool_decide (y ∈ seen)); [apply IH|].
  rewrite <-IH. by rewrite fmap_app.
Qed.

Lemma Set_of_strings (items : list string) : Set_of (JStr <$> items) = JStr <$> unique items.
Proof. apply (Set_of_strings_from items []). Qed.

Lemma extractUser_arrays claims clientId (rs cs : list string) :
  or_empty (opt_prop (claims !! "realm_access") "roles") = JArr (JStr <$> rs) ->
  or_empty (opt_prop (opt_prop (claims !! "resource_access") clientId) "roles")
    = JArr (JStr <$> cs) ->
  exists u : KeycloakUser,
    extractUser claims clientId = Ok u /\
    roles u = JStr <$> unique (rs ++ cs) /\
    realm_roles u = JArr (JStr <$> rs) /\ client_roles u = JArr (JStr <$> cs) /\
    raw_claims u = claims /\ sub u = claims !! "sub".
Proof.
  intros Hr Hc. unfold extractUser. rewrite Hr, Hc. cbn [iterate mbind Result_bind].
  eexists. split; [reflexivity|]. cbn [roles realm_roles client_roles raw_claims sub].
  by rewrite <-fmap_app, Set_of_strings.
Qed.

(** The roles of a user are the realm roles followed by the roles of the
    client [clientId], each once: a role is among them exactly when it is a
    realm role or a role of that client, and none occurs twice. *)
Theorem extractUser_roles_union (claims : gmap string json) (clientId : string)
    (realm_access resource_access client : gmap string json) (rs cs : list string) :
  claims !! "realm_access" = Some (JObj realm_access) ->
  realm_access !! "roles" = Some (JArr (JStr <$> rs)) ->
  claims !! "resource_access" = Some (JObj resource_access) ->
  resource_access !! clientId = Some (JObj client) ->
  client !! "roles" = Some (JArr (JStr <$> cs)) ->
  exists u : KeycloakUser,
    extractUser claims clientId = Ok u /\
    roles u = JStr <$> unique (rs ++ cs) /\
    NoDup (roles u) /\
    (forall r : string, JStr r ∈ roles u <-> r ∈ rs \/ r ∈ cs) /\
    realm_roles u = JArr (JStr <$> rs) /\ client_roles u = JArr (JStr <$> cs).
Proof.
  intros H1 H2 H3 H4 H5.
  destruct (extractUser_arrays claims clientId rs cs) as (u & Hu & Hroles & Hrr & Hcr & _ & _).
  { rewrite H1. cbn [opt_prop]. by rewrite H2. }
  { rewrite H3. cbn [opt_prop]. rewrite H4. cbn [opt_prop]. by rewrite H5. }
  exists u. destruct (unique_spec (rs ++ cs)) as [Hnd Hmem].
  split; [done|]. split; [done|]. rewrite Hroles.
  assert (Hinj : Inj (=) (=) JStr) by (by intros x y [= ->]).
  split; [by apply (NoDup_fmap_2 JStr)|].
  split; [|done]. intros r. rewrite list_elem_of_fmap. split.
  - intros (x & [= <-] & Hx). apply Hmem in Hx. by apply elem_of_app.
  - intros Hr. exists r. split; [done|]. apply Hmem. by apply elem_of_app.
Qed.

(** Claims without [realm_access] and without an entry for the client in
    [resource_access] give a user without roles, not an error, whatever the
    other clients of [resource_access] hold. *)
Theorem extractUser_no_roles (claims : gmap string json) (clientId : string) :
  claims !! "realm_access" = None ->
  (claims !! "resource_access" = None \/
   exists resource_access : gmap string json,
     claims !! "resource_access" = Some (JObj resource_access) /\
     resource_access !! clientId = None) ->
  exists u : KeycloakUser,
    extractUser claims clientId = Ok u /\
    roles u = [] /\ realm_roles u = JArr [] /\ client_roles u = JArr [] /\
    raw_claims u = claims /\ sub u = claims !! "sub".
Proof.
  intros Hrealm Hres.
  destruct (extractUser_arrays claims clientId [] [])
    as (u & Hu & Hroles & Hrr & Hcr & Hraw & Hsub).
  { by rewrite Hrealm. }
  { destruct Hres as [-> | (ra & -> & Hc)]; [done|]. cbn [opt_prop]. by rewrite Hc. }
  exists u. repeat split; done.
Qed.

Lemma extractUser_roles_union_witness :
  exists u : KeycloakUser,
    extractUser Sample.access_claims "app" = Ok u /\
    roles u = JStr <$> unique (["user"; "admin"] ++ ["editor"; "user"]) /\
    NoDup (roles u) /\
    (forall r : string, JStr r ∈ roles u <-> r ∈ ["user"; "admin"] \/ r ∈ ["editor"; "user"]) /\
    realm_roles u = JArr (JStr <$> ["user"; "admin"]) /\
    client_roles u = JArr (JStr <$> ["editor"; "user"]).
Proof.
  apply (extractUser_roles_union Sample.access_claims "app"
           {[ "roles" := JArr [JStr "user"; JStr "admin"] ]}
           {[ "app" := JObj {[ "roles" := JArr [JStr "editor"; JStr "user"] ]} ]}
           {[ "roles" := JArr [JStr "editor"; JStr "user"] ]});
    reflexivity.
Defined.

Lemma extractUser_no_roles_witness :
  exists u : KeycloakUser,
    extractUser Sample.id_claims "app" = Ok u /\
    roles u = [] /\ realm_roles u = JArr [] /\ client_roles u = JArr [] /\
    raw_claims u = Sample.id_claims /\ sub u = Sample.id_claims !! "sub".
Proof.
  apply (extractUser_no_roles Sample.id_claims "app"); [reflexivity | left; reflexivity].
Defined.

(** A [roles] claim that is present and is a number, a boolean or an object
    cannot be spread: [extractUser] throws a TypeError, for the realm roles
    and, when those are absent, for the roles of the client. *)
Theorem extractUser_roles_not_iterable (claims : gmap string json) (clientId : string)
    (v : json) :
  match v with JBool _ | JNum _ | JObj _ => True | _ => False end ->
  opt_prop (claims !! "realm_access") "roles" = Some v \/
  (claims !! "realm_access" = None /\
   opt_prop (opt_prop (claims !! "resource_access") clientId) "roles" = Some v) ->
  exists e : JsError, extractUser claims clientId = Throw e /\ err_name e = "TypeError".
Proof.
  intros Hv [Hrealm | [Hrealm Hclient]]; unfold extractUser.
  - rewrite Hrealm. destruct v; try done; eexists; done.
  - rewrite Hrealm, Hclient. cbn [opt_prop or_empty iterate mbind Result_bind].
    destruct v; try done; eexists; done.
Qed.

Lemma extractUser_roles_not_iterable_witness :
  exists e : JsError,
    extractUser {[ "realm_access" := JObj {[ "roles" := JNum 7 ]} ]} "app" = Throw e /\
    err_name e = "TypeError".
Proof.
  apply (extractUser_roles_not_iterable _ "app" (JNum 7)); [exact I | left; reflexivity].
Defined.

(** For a user extracted from claims whose realm roles and client roles are
    arrays of strings, the three role tests of the provider agree with the
    claims: [hasRealmRole] and [hasClientRole] search their own list, and
    [hasRole] holds exactly when one of the two does. *)
Theorem hasRole_realm_or_client (claims : gmap string json) (clientId : string)
    (rs cs : list string) (u : KeycloakUser) (role : string) :
  or_empty (opt_prop (claims !! "realm_access") "roles") = JArr (JStr <$> rs) ->
  or_empty (opt_prop (opt_prop (claims !! "resource_access") clientId) "roles")
    = JArr (JStr <$> cs) ->
  extractUser claims clientId = Ok u ->
  hasRealmRole (Some u) role = Ok (bool_decide (role ∈ rs)) /\
  hasClientRole (Some u) role = Ok (bool_decide (role ∈ cs)) /\
  hasRole (Some u) role = bool_decide (role ∈ rs) || bool_decide (role ∈ cs).
Proof.
  intros Hr Hc Hu.
  destruct (extractUser_arrays claims clientId rs cs Hr Hc)
    as (u' & Hu' & Hroles & Hrr & Hcr & _).
  assert (u' = u) as -> by congruence.
  unfold hasRealmRole, hasClientRole, hasRole, includes.
  rewrite Hrr, Hcr, Hroles, !existsb_same_value.
  split; [done|]. split; [done|].
  destruct (unique_spec (rs ++ cs)) as [_ Hmem].
  destruct (decide (role ∈ rs)) as [Hin|Hout].
  - rewrite (bool_decide_eq_true_2 (role ∈ rs)) by done. cbn [orb].
    apply bool_decide_eq_true_2, Hmem, elem_of_app. by left.
  - rewrite (bool_decide_eq_false_2 (role ∈ rs)) by done. cbn [orb].
    apply bool_decide_ext. rewrite Hmem, elem_of_app. tauto.
Qed.

Lemma hasRole_realm_or_client_witness :
  exists u : KeycloakUser,
    extractUser Sample.access_claims "app" = Ok u /\
    hasRealmRole (Some u) "editor" = Ok false /\
    hasClientRole (Some u) "editor" = Ok true /\
    hasRole (Some u) "editor" = true.
Proof.
  destruct (extractUser Sample.access_claims "app") as [u|] eqn:Hu;
    [|vm_compute in Hu; discriminate].
  exists u. split; [reflexivity|].
  apply (hasRole_realm_or_client Sample.access_claims "app" ["user"; "admin"]
           ["editor"; "user"] u "editor"); [reflexivity | reflexivity | exact Hu].
Defined.

End Roles.


(** ** Expiry *)

Section Expiry.

Lemma normalizeTokenResponse_eq (response : TokenResponse) (w : World) :
  normalizeTokenResponse response w =
  (Ok {| access_token := tr_access_token response;
         refresh_token := tr_refresh_token response;
         id_token := tr_id_token response;
         token_type := tr_token_type response;
         expires_in := tr_expires_in response;
         refresh_expires_in := tr_refresh_expires_in response;
         access_token_expires_at := now_seconds w + tr_expires_in response;
         refresh_token_expires_at := now_seconds w + tr_refresh_expires_in response |}, w).
Proof. reflexivity. Qed.

(** Once [isTokenExpired] answers true for a timestamp, it answers true at
    every later time and with every larger margin. *)
Theorem isTokenExpired_monotone (w w' : World) (expiresAt : jsnum) (m m' : option Z) :
  clock w <= clock w' ->
  nullish m 60 <= nullish m' 60 ->
  isTokenExpired expiresAt m w = (Ok true, w) ->
  isTokenExpired expiresAt m' w' = (Ok true, w').
Proof.
  intros Hclock Hmargin. unfold isTokenExpired, Date_now. rewrite !bind_run.
  destruct expiresAt as [|e]; [done|].
  intros [= Hexp]. unfold mret, M_ret. do 2 f_equal.
  apply Z.geb_le. apply Z.geb_le in Hexp.
  pose proof (Z.div_le_mono (clock w) (clock w') 1000 ltac:(lia) Hclock). lia.
Qed.

Lemma isTokenExpired_monotone_witness :
  isTokenExpired (Int 1700000030) None Sample.access_only = (Ok true, Sample.access_only).
Proof.
  apply (isTokenExpired_monotone Sample.access_only Sample.access_only (Int 1700000030)
           (Some 30) None); [reflexivity | cbn; lia | reflexivity].
Defined.


End Expiry.

(** ** Discovery, continued *)

Section DiscoveryCache.
Context (P : Platform).

Lemma endsWith_slash_app (url : string) : endsWith_slash (url +:+ "/") = true.
Proof.
  induction url as [|c url IH]; [done|].
  change (String c url +:+ "/") with (String c (url +:+ "/")).
  cbn [endsWith_slash]. rewrite IH. by destruct url.
Qed.

Lemma slice_0_m1_app (url : string) (c : ascii) : slice_0_m1 (url +:+ String c "") = url.
Proof.
  induction url as [|a url IH]; [done|].
  change (String a url +:+ String c "") with (String a (url +:+ String c "")).
  cbn [slice_0_m1]. rewrite IH. by destruct url.
Qed.

Lemma append_assoc (s t u : string) : (s +:+ t) +:+ u = s +:+ t +:+ u.
Proof.
  induction s as [|c s IH]; [done|].
  change (String c (s +:+ t) +:+ u = String c (s +:+ t +:+ u)). by rewrite <-IH.
Qed.

(** A base address is used with or without its final "/": one "/" is
    dropped, so that both spellings give the same realm address and the same
    discovery address; the discovery cache, keyed by the address as given,
    holds the two spellings under different keys. *)
Theorem getRealmUrl_trailing_slash (url realm : string) :
  endsWith_slash url = false ->
  getRealmUrl url realm = url +:+ "/realms/" +:+ realm /\
  getRealmUrl (url +:+ "/") realm = getRealmUrl url realm /\
  wellKnownUrl (url +:+ "/") realm = wellKnownUrl url realm /\
  (url +:+ "/") +:+ ":" +:+ realm <> url +:+ ":" +:+ realm.
Proof.
  intros Hslash.
  assert (Hsame : getRealmUrl (url +:+ "/") realm = getRealmUrl url realm).
  { unfold getRealmUrl. by rewrite endsWith_slash_app, slice_0_m1_app, Hslash. }
  split; [unfold getRealmUrl; by rewrite Hslash|]. split; [done|].
  split; [unfold wellKnownUrl; by rewrite Hsame|].
  rewrite append_assoc. by intros ?%(inj (String.append url)).
Qed.

Lemma getRealmUrl_trailing_slash_witness :
  getRealmUrl "https://idp.test/" "demo" = getRealmUrl "https://idp.test" "demo".
Proof.
  destruct (getRealmUrl_trailing_slash "https://idp.test" "demo") as (_ & Hsame & _);
    [reflexivity | exact Hsame].
Defined.

Lemma check_required_valid fields endpoints wellKnown :
  check_required fields endpoints wellKnown = Ok tt ->
  Forall (fun field => truthy (field.2 endpoints) = true) fields.
Proof.
  induction fields as [|[field get] fields IH]; cbn [check_required]; [by constructor|].
  destruct (truthy (get endpoints)) eqn:Hget; [|done]. cbn [negb].
  intros Hrest. constructor; [done | by apply IH].
Qed.

Lemma read_discovery_valid wellKnown response endpoints :
  read_discovery wellKnown response = Ok endpoints -> endpoints_valid endpoints.
Proof.
  unfold read_discovery. destruct (negb (ok response)); [done|].
  unfold mbind, Result_bind.
  destruct (response_json response) as [config|]; [|done].
  repeat match goal with
         | |- context [match read_prop ?c ?k with _ => _ end] =>
             destruct (read_prop c k); [|done]
         end.
  destruct (check_required _ _ _) as [[]|] eqn:Hcheck; [|done].
  intros [= <-]. by eapply check_required_valid.
Qed.

Lemma discover_fetch_netlog url realm key w :
  netlog (discover_fetch P url realm key w).2 = netlog w ++ [discovery_request url realm].
Proof.
  rewrite discover_fetch_eq. cbv zeta. fold (discovery_request url realm).
  destruct (reply _); [done|]. by destruct (read_discovery _ _).
Qed.

(** The discovery cache keeps a fetched document for [CACHE_TTL_MS] = 300000
    milliseconds, counted from the arrival of the response: a fetch sends
    one request; while the entry is in the cache, a call before that time
    returns the same endpoints and leaves the world as it is, and a call at
    or after that time sends the request again. *)
Theorem discoverEndpoints_cache_ttl (url realm : string) (w w1 w2 : World)
    (endpoints : OIDCEndpoints) :
  cache_miss w (url +:+ ":" +:+ realm) ->
  discoverEndpoints P url realm w = (Ok endpoints, w1) ->
  cache w2 !! (url +:+ ":" +:+ realm) = cache w1 !! (url +:+ ":" +:+ realm) ->
  netlog w1 = netlog w ++ [discovery_request url realm] /\
  (clock w2 < clock w1 + 300000 ->
   discoverEndpoints P url realm w2 = (Ok endpoints, w2)) /\
  (clock w1 + 300000 <= clock w2 ->
   netlog (discoverEndpoints P url realm w2).2 = netlog w2 ++ [discovery_request url realm]).
Proof.
  intros Hmiss Hrun Hkept.
  assert (Hfetch : discover_fetch P url realm (url +:+ ":" +:+ realm) w = (Ok endpoints, w1)).
  { rewrite discoverEndpoints_eq in Hrun. unfold cache_miss in Hmiss.
    destruct (cache w !! _) as [entry|]; [|done].
    by destruct (Z.ltb_spec (clock w) (ce_expiresAt entry)); [lia|]. }
  split.
  { rewrite <-(discover_fetch_netlog url realm (url +:+ ":" +:+ realm) w). by rewrite Hfetch. }
  assert (Hentry : cache w1 !! (url +:+ ":" +:+ realm)
                   = Some {| ce_endpoints := endpoints; ce_expiresAt := clock w1 + 300000 |}).
  { rewrite discover_fetch_eq in Hfetch. cbv zeta in Hfetch.
    destruct (reply _); [done|]. destruct (read_discovery _ _); [|done].
    injection Hfetch as <- <-. cbn [cache set_cache clock sent]. by rewrite lookup_insert_eq. }
  rewrite discoverEndpoints_eq, Hkept, Hentry. cbn [ce_expiresAt ce_endpoints].
  split; intros Hclock.
  - by destruct (Z.ltb_spec (clock w2) (clock w1 + 300000)); [|lia].
  - destruct (Z.ltb_spec (clock w2) (clock w1 + 300000)); [lia|].
    apply discover_fetch_netlog.
Qed.

(** Every entry of the discovery cache, and every result of
    [discoverEndpoints], has all five required endpoints: a run that starts
    from a cache with this property keeps it. *)
Theorem discoverEndpoints_valid (url realm : string) (w w' : World)
    (r : Result OIDCEndpoints) :
  cache_valid w ->
  discoverEndpoints P url realm w = (r, w') ->
  cache_valid w' /\
  (forall endpoints : OIDCEndpoints, r = Ok endpoints ->
     endpoints_valid endpoints /\ truthy (token_endpoint endpoints) = true /\
     truthy (authorization_endpoint endpoints) = true /\
     truthy (end_session_endpoint endpoints) = true).
Proof.
  intros Hvalid Hrun.
  assert (Hfields : forall endpoints, endpoints_valid endpoints ->
    endpoints_valid endpoints /\ truthy (token_endpoint endpoints) = true /\
    truthy (authorization_endpoint endpoints) = true /\
    truthy (end_session_endpoint endpoints) = true).
  { intros endpoints Hall. split; [done|]. unfold endpoints_valid, requiredFields in Hall.
    repeat (apply Forall_cons in Hall as [? Hall]). done. }
  assert (Hfetch : discover_fetch P url realm (url +:+ ":" +:+ realm) w = (r, w') ->
    cache_valid w' /\ (forall endpoints, r = Ok endpoints -> endpoints_valid endpoints)).
  { rewrite discover_fetch_eq. cbv zeta.
    destruct (reply _); [by intros [= <- <-]|].
    destruct (read_discovery _ _) as [endpoints|] eqn:Hread; [|by intros [= <- <-]].
    apply read_discovery_valid in Hread. intros [= <- <-]. split; [|by intros ? [= <-]].
    intros key entry. cbn [cache set_cache sent].
    destruct (decide (key = url +:+ ":" +:+ realm)) as [->|Hne].
    - rewrite lookup_insert_eq. by intros [= <-].
    - rewrite lookup_insert_ne by done. apply Hvalid. }
  rewrite discoverEndpoints_eq in Hrun.
  destruct (cache w !! _) as [entry|] eqn:Hentry.
  - destruct (clock w <? ce_expiresAt entry).
    + injection Hrun as <- <-. split; [done|]. intros endpoints [= <-].
      apply Hfields. by eapply Hvalid.
    + destruct (Hfetch Hrun) as [? Hr]. split; [done|]. intros. apply Hfields. by apply Hr.
  - destruct (Hfetch Hrun) as [? Hr]. split; [done|]. intros. apply Hfields. by apply Hr.
Qed.

(** After [clearDiscoveryCache] the next call of [discoverEndpoints] goes
    to the network, for every address and realm. *)
Theorem clearDiscoveryCache_refetch (url realm : string) (w : World) :
  exists w0 : World,
    clearDiscoveryCache w = (Ok tt, w0) /\
    cache w0 = ∅ /\ cookieStore w0 = cookieStore w /\ netlog w0 = netlog w /\
    netlog (discoverEndpoints P url realm w0).2 = netlog w ++ [discovery_request url realm].
Proof.
  eexists. split; [reflexivity|]. cbn [cache set_cache cookieStore netlog].
  split; [done|]. split; [done|]. split; [done|].
  rewrite discoverEndpoints_eq. cbn [cache set_cache]. rewrite lookup_empty.
  by rewrite discover_fetch_netlog.
Qed.

End DiscoveryCache.


(** ** The token endpoint *)

Section TokenCalls.
Context (P : Platform).

Lemma searchParams_get_cons (k k' v' : string) (rest : list (string * string)) :
  searchParams_get k ((k', v') :: rest) =
  if decide (k' = k) then Some v' else searchParams_get k rest.
Proof.
  unfold searchParams_get. cbn [list_find]. cbn [fst].
  destruct (decide (k' = k)); [done|].
  rewrite <-option_fmap_compose. by destruct (list_find _ rest) as [[i [a b]]|].
Qed.

Lemma searchParams_get_filter (k k' : string) (ps : list (string * string)) :
  k <> k' ->
  searchParams_get k (filter (fun p => p.1 ≠ k') ps) = searchParams_get k ps.
Proof.
  intros Hne. induction ps as [|[a b] ps IH]; [done|].
  rewrite filter_cons. cbn [fst]. destruct (decide (a ≠ k')) as [Ha|Ha].
  - rewrite !searchParams_get_cons. by rewrite IH.
  - apply dec_stable in Ha. subst a. rewrite searchParams_get_cons.
    by destruct (decide (k' = k)); [congruence|].
Qed.

Lemma searchParams_get_set_eq (k v : string) (ps : list (string * string)) :
  searchParams_get k (params_set k v ps) = Some v.
Proof.
  induction ps as [|[a b] ps IH]; cbn [params_set].
  - rewrite searchParams_get_cons. by destruct (decide (k = k)).
  - destruct (String.eqb_spec a k) as [->|Hne].
    + rewrite searchParams_get_cons. by destruct (decide (k = k)).
    + rewrite searchParams_get_cons. by destruct (decide (a = k)).
Qed.

Lemma searchParams_get_set_ne (k k' v : string) (ps : list (string * string)) :
  k <> k' ->
  searchParams_get k (params_set k' v ps) = searchParams_get k ps.
Proof.
  intros Hne. induction ps as [|[a b] ps IH]; cbn [params_set].
  - rewrite searchParams_get_cons. by destruct (decide (k' = k)); [congruence|].
  - destruct (String.eqb_spec a k') as [->|Ha].
    + rewrite !searchParams_get_cons. destruct (decide (k' = k)); [congruence|].
      by apply searchParams_get_filter.
    + rewrite !searchParams_get_cons. by rewrite IH.
Qed.

Lemma with_secret_get (config : KeycloakConfig) (body : list (string * string)) (k : string) :
  k <> "client_secret" ->
  searchParams_get k (with_secret config body) = searchParams_get k body.
Proof.
  intros Hne. unfold with_secret.
  destruct (truthy_str (clientSecret config)); [|done]. by apply searchParams_get_set_ne.
Qed.

Lemma with_secret_secret (config : KeycloakConfig) (body : list (string * string)) :
  searchParams_get "client_secret" body = None ->
  searchParams_get "client_secret" (with_secret config body) = sent_secret config.
Proof.
  intros Hnone. unfold with_secret, sent_secret.
  destruct (clientSecret config) as [[|c s]|]; try done.
  cbn [truthy_str nullish]. apply searchParams_get_set_eq.
Qed.

Lemma exchangeCodeForTokens_eq config code codeVerifier redirectUri w :
  exchangeCodeForTokens P config code codeVerifier redirectUri w =
  match discoverEndpoints P (url config) (realm config) w with
  | (Throw e, w1) => (Throw e, w1)
  | (Ok endpoints, w1) =>
      let req := token_request endpoints
                   (exchange_body config code codeVerifier redirectUri) in
      let out := network P (netlog w1) req in
      let w2 := sent req (elapsed out) w1 in
      match reply out with
      | Rejected e => (Throw e, w2)
      | Replied response =>
          if ok response
          then match body_json response with
               | Some doc => normalizeTokenResponse (asTokenResponse P doc) w2
               | None => (Throw (mkError "SyntaxError" "Unexpected token in JSON"), w2)
               end
          else (Throw (Error ("Token exchange failed: " +:+ pretty (status response) +:+ " "
                              +:+ statusText response +:+ " — " +:+ body_text response)), w2)
      end
  end.
Proof.
  unfold exchangeCodeForTokens. rewrite bind_run.
  destruct (discoverEndpoints P (url config) (realm config) w) as [[endpoints|e] w1]; [|done].
  rewrite bind_run, fetch_eq. cbv zeta. unfold token_request, exchange_body.
  destruct (reply _) as [e|response]; [done|].
  destruct (ok response); cbn [negb]; [|done].
  rewrite bind_run. unfold lift, response_json. by destruct (body_json response).
Qed.

Lemma refreshAccessToken_eq config refreshToken w :
  refreshAccessToken P config refreshToken w =
  match discoverEndpoints P (url config) (realm config) w with
  | (Throw e, w1) => (Throw e, w1)
  | (Ok endpoints, w1) =>
      let req := token_request endpoints (refresh_body config refreshToken) in
      let out := network P (netlog w1) req in
      let w2 := sent req (elapsed out) w1 in
      match reply out with
      | Rejected e => (Throw e, w2)
      | Replied response =>
          if ok response
          then match body_json response with
               | Some doc => normalizeTokenResponse (asTokenResponse P doc) w2
               | None => (Throw (mkError "SyntaxError" "Unexpected token in JSON"), w2)
               end
          else (Throw (Error ("Token refresh failed: " +:+ pretty (status response) +:+ " "
                              +:+ statusText response +:+ " — " +:+ body_text response)), w2)
      end
  end.
Proof.
  unfold refreshAccessToken. rewrite bind_run.
  destruct (discoverEndpoints P (url config) (realm config) w) as [[endpoints|e] w1]; [|done].
  rewrite bind_run, fetch_eq. cbv zeta. unfold token_request, refresh_body.
  destruct (reply _) as [e|response]; [done|].
  destruct (ok response); cbn [negb]; [|done].
  rewrite bind_run. unfold lift, response_json. by destruct (body_json response).
Qed.

(** The code-for-tokens exchange, once the endpoints are known, sends one
    POST to the token endpoint whose form holds the grant type
    authorization_code, the client id, the code, the redirect URI and the
    PKCE code verifier in clear; the client secret is in the form exactly
    when one is configured and not empty, and no code challenge is sent.
    When the discovery throws, the exchange throws the same error and no
    token request is sent. *)
Theorem exchangeCodeForTokens_request (config : KeycloakConfig)
    (code codeVerifier redirectUri : string) (w : World) :
  match discoverEndpoints P (url config) (realm config) w with
  | (Ok endpoints, w1) =>
      exists body : list (string * string),
        netlog (exchangeCodeForTokens P config code codeVerifier redirectUri w).2
          = netlog w1 ++ [{| fr_input := token_endpoint endpoints; fr_init := post_form body |}] /\
        searchParams_get "grant_type" body = Some "authorization_code" /\
        searchParams_get "client_id" body = Some (clientId config) /\
        searchParams_get "code" body = Some code /\
        searchParams_get "redirect_uri" body = Some redirectUri /\
        searchParams_get "code_verifier" body = Some codeVerifier /\
        searchParams_get "client_secret" body = sent_secret config /\
        searchParams_get "code_challenge" body = None
  | (Throw e, w1) =>
      exchangeCodeForTokens P config code codeVerifier redirectUri w = (Throw e, w1)
  end.
Proof.
  rewrite exchangeCodeForTokens_eq.
  destruct (discoverEndpoints P (url config) (realm config) w) as [[endpoints|e] w1]; [|done].
  exists (exchange_body config code codeVerifier redirectUri). cbv zeta.
  split.
  { destruct (reply _) as [e|response]; [done|].
    destruct (ok response); [|done]. by destruct (body_json response). }
  unfold exchange_body.
  rewrite (with_secret_get _ _ "grant_type"), (with_secret_get _ _ "client_id"),
    (with_secret_get _ _ "code"), (with_secret_get _ _ "redirect_uri"),
    (with_secret_get _ _ "code_verifier"), (with_secret_get _ _ "code_challenge") by done.
  rewrite with_secret_secret by reflexivity. repeat split; reflexivity.
Qed.

(** The refresh, once the endpoints are known, sends one POST to the token
    endpoint whose form holds the grant type refresh_token, the client id
    and the refresh token, and the client secret exactly when one is
    configured and not empty; it holds no code and no code verifier.  When
    the discovery throws, the refresh throws the same error and no token
    request is sent. *)
Theorem refreshAccessToken_request (config : KeycloakConfig) (refreshToken : string)
    (w : World) :
  match discoverEndpoints P (url config) (realm config) w with
  | (Ok endpoints, w1) =>
      exists body : list (string * string),
        netlog (refreshAccessToken P config refreshToken w).2
          = netlog w1 ++ [{| fr_input := token_endpoint endpoints; fr_init := post_form body |}] /\
        searchParams_get "grant_type" body = Some "refresh_token" /\
        searchParams_get "client_id" body = Some (clientId config) /\
        searchParams_get "refresh_token" body = Some refreshToken /\
        searchParams_get "client_secret" body = sent_secret config /\
        searchParams_get "code" body = None /\
        searchParams_get "code_verifier" body = None
  | (Throw e, w1) => refreshAccessToken P config refreshToken w = (Throw e, w1)
  end.
Proof.
  rewrite refreshAccessToken_eq.
  destruct (discoverEndpoints P (url config) (realm config) w) as [[endpoints|e] w1]; [|done].
  exists (refresh_body config refreshToken). cbv zeta.
  split.
  { destruct (reply _) as [e|response]; [done|].
    destruct (ok response); [|done]. by destruct (body_json response). }
  unfold refresh_body.
  rewrite (with_secret_get _ _ "grant_type"), (with_secret_get _ _ "client_id"),
    (with_secret_get _ _ "refresh_token"), (with_secret_get _ _ "code"),
    (with_secret_get _ _ "code_verifier") by done.
  rewrite with_secret_secret by reflexivity. repeat split; reflexivity.
Qed.

Lemma discoverEndpoints_netlog url realm w :
  netlog (discoverEndpoints P url realm w).2 = netlog w \/
  netlog (discoverEndpoints P url realm w).2 = netlog w ++ [discovery_request url realm].
Proof.
  rewrite discoverEndpoints_eq.
  destruct (cache w !! _) as [entry|]; [|right; apply discover_fetch_netlog].
  destruct (clock w <? ce_expiresAt entry); [by left | right; apply discover_fetch_netlog].
Qed.

Lemma discoverEndpoints_clock url realm w :
  clock w <= clock (discoverEndpoints P url realm w).2.
Proof.
  rewrite discoverEndpoints_eq.
  assert (Hfetch : forall key, clock w <= clock (discover_fetch P url realm key w).2).
  { intros key. rewrite discover_fetch_eq. cbv zeta.
    destruct (reply _); [cbn; lia|]. destruct (read_discovery _ _); cbn; lia. }
  destruct (cache w !! _) as [entry|]; [|apply Hfetch].
  destruct (clock w <? ce_expiresAt entry); [cbn; lia | apply Hfetch].
Qed.

Lemma token_dated (response : TokenResponse) (w2 : World) tokens w' :
  normalizeTokenResponse response w2 = (Ok tokens, w') ->
  w' = w2 /\
  access_token_expires_at tokens = now_seconds w2 + expires_in tokens /\
  refresh_token_expires_at tokens = now_seconds w2 + refresh_expires_in tokens.
Proof. rewrite normalizeTokenResponse_eq. by intros [= <- <-]. Qed.

Lemma refreshAccessToken_dated config refreshToken w tokens w' :
  refreshAccessToken P config refreshToken w = (Ok tokens, w') ->
  access_token_expires_at tokens = now_seconds w' + expires_in tokens /\
  refresh_token_expires_at tokens = now_seconds w' + refresh_expires_in tokens.
Proof.
  rewrite refreshAccessToken_eq.
  destruct (discoverEndpoints _ _ _ _) as [[endpoints|e] w1]; [|done]. cbv zeta.
  destruct (reply _) as [e|response]; [done|].
  destruct (ok response); [|done]. destruct (body_json response); [|done].
  by intros (-> & ? & ?)%token_dated.
Qed.

Lemma exchangeCodeForTokens_dated config code codeVerifier redirectUri w tokens w' :
  exchangeCodeForTokens P config code codeVerifier redirectUri w = (Ok tokens, w') ->
  access_token_expires_at tokens = now_seconds w' + expires_in tokens /\
  refresh_token_expires_at tokens = now_seconds w' + refresh_expires_in tokens.
Proof.
  rewrite exchangeCodeForTokens_eq.
  destruct (discoverEndpoints _ _ _ _) as [[endpoints|e] w1]; [|done]. cbv zeta.
  destruct (reply _) as [e|response]; [done|].
  destruct (ok response); [|done]. destruct (body_json response); [|done].
  by intros (-> & ? & ?)%token_dated.
Qed.

(** Tokens that a token call returns are dated from the arrival of the
    answer: each expiry is the second in which the call ends plus the
    lifetime, whatever time the discovery and the request have taken.  The
    call has sent its request and has left the cookies and the console as
    they were. *)
Theorem token_calls_dated (config : KeycloakConfig) (code codeVerifier redirectUri
    refreshToken : string) (w w' : World) (tokens : KeycloakTokens) :
  exchangeCodeForTokens P config code codeVerifier redirectUri w = (Ok tokens, w') \/
  refreshAccessToken P config refreshToken w = (Ok tokens, w') ->
  access_token_expires_at tokens = now_seconds w' + expires_in tokens /\
  refresh_token_expires_at tokens = now_seconds w' + refresh_expires_in tokens /\
  cookieStore w' = cookieStore w /\ console w' = console w /\
  (length (netlog w) < length (netlog w'))%nat.
Proof.
  intros [Hrun | Hrun].
  - destruct (exchangeCodeForTokens_dated _ _ _ _ _ _ _ Hrun) as [? ?].
    apply exchangeCodeForTokens_run in Hrun as (? & ? & ?). done.
  - destruct (refreshAccessToken_dated _ _ _ _ _ Hrun) as [? ?].
    apply refreshAccessToken_run in Hrun as (? & ? & ?). done.
Qed.

End TokenCalls.

Lemma token_calls_dated_witness :
  exists (tokens : KeycloakTokens) (w' : World),
    refreshAccessToken Fixture.provider Sample.config "refresh.jwt" (Sample.world [])
      = (Ok tokens, w') /\
    clock w' = 1700000000040 /\
    access_token_expires_at tokens = now_seconds w' + expires_in tokens /\
    length (netlog w') = 2%nat.
Proof.
  destruct (refreshAccessToken Fixture.provider Sample.config "refresh.jwt" (Sample.world []))
    as [[tokens|e] w'] eqn:Hrun; [|vm_compute in Hrun; discriminate].
  exists tokens, w'. split; [reflexivity|].
  destruct (token_calls_dated Fixture.provider Sample.config "" "" "" "refresh.jwt"
              (Sample.world []) w' tokens) as (Hat & _); [right; exact Hrun|].
  split; [vm_compute in Hrun; by injection Hrun as _ <-|].
  split; [exact Hat|].
  vm_compute in Hrun. by injection Hrun as _ <-.
Defined.


(** ** Cookies *)

Lemma cookie_name_differs (prefix s t : string) : s <> t -> prefix +:+ s <> prefix +:+ t.
Proof. intros Hne ?%(inj (String.append prefix)). done. Qed.

Ltac jar_lookup :=
  cbn [getCookieNames n_accessToken n_refreshToken n_idToken n_expiresAt n_refreshExpiresAt
       n_codeVerifier n_state n_returnTo];
  repeat first
    [ rewrite lookup_insert_eq
    | rewrite lookup_insert_ne by (apply cookie_name_differs; discriminate)
    | rewrite lookup_delete_eq
    | rewrite lookup_delete_ne by (apply cookie_name_differs; discriminate) ].

Section CookieJar.









Lemma setTokenCookies_run tokens (prefix : option string) w :
  setTokenCookies tokens prefix w =
  (Ok tt, set_cookieStore (with_tokens (production w) tokens (nullish prefix "kc")) w).
Proof. by destruct prefix. Qed.

Lemma setPKCECookies_eq codeVerifier state returnTo prefix w :
  setPKCECookies codeVerifier state returnTo prefix w =
  (Ok tt, set_cookieStore (with_pkce (production w) codeVerifier state returnTo prefix) w).
Proof. reflexivity. Qed.

Lemma clearTokenCookies_eq prefix w :
  clearTokenCookies prefix w = (Ok tt, set_cookieStore (without_tokens prefix) w).
Proof. reflexivity. Qed.



Lemma stored_pkce_with_pkce production codeVerifier state returnTo prefix jar :
  stored_pkce prefix (with_pkce production codeVerifier state returnTo prefix jar) =
  {| pk_codeVerifier := Some codeVerifier; pk_state := Some state;
     pk_returnTo := Some returnTo |}.
Proof. unfold stored_pkce, with_pkce. cbv zeta. by jar_lookup. Qed.







(** The flags of the token cookies: all five are SameSite=Lax on the path
    "/", and Secure exactly in production; the three tokens are HttpOnly and
    the two expiry cookies are not; the access token and the id token live
    as long as the access token, the refresh token and the two expiries as
    long as the refresh token. *)
Theorem setTokenCookies_attributes (tokens : KeycloakTokens) (prefix : option string)
    (w : World) :
  let names := getCookieNames (nullish prefix "kc") in
  let jar := cookieStore (setTokenCookies tokens prefix w).2 in
  let flags (http : bool) (age : Z) :=
    Some (Some {| httpOnly := http; secure := bool_decide (NODE_ENV w = Some "production");
                  sameSite := "lax"; path := "/"; domain := None; maxAge := age |}) in
  c_attrs <$> jar !! n_accessToken names = flags true (expires_in tokens) /\
  c_attrs <$> jar !! n_refreshToken names = flags true (refresh_expires_in tokens) /\
  c_attrs <$> jar !! n_idToken names = flags true (expires_in tokens) /\
  c_attrs <$> jar !! n_expiresAt names = flags false (refresh_expires_in tokens) /\
  c_attrs <$> jar !! n_refreshExpiresAt names = flags false (refresh_expires_in tokens).
Proof.
  cbv zeta. rewrite setTokenCookies_run. cbn [snd cookieStore set_cookieStore].
  unfold with_tokens. cbv zeta. generalize (nullish prefix "kc"). intros p.
  repeat split; by jar_lookup.
Qed.


End CookieJar.


(** ** The session resolver, continued *)

Section SessionRuns.
Context (P : Platform).




(** The three ways in which [getSession] ends. *)
Lemma getSession_cases config w :
  let prefix := cookie_prefix config in
  let tc := stored_tokens prefix (cookieStore w) in
  (getSession P config w = (Ok None, w) /\ access_valid w tc (refresh_margin config) = false)
  \/
  (access_valid w tc (refresh_margin config) = true /\
   getSession P config w =
   match buildSession P (nullish (tc_accessToken tc) "") (tc_idToken tc) (tc_expiresAt tc)
           (tc_refreshExpiresAt tc) (clientId config) with
   | Ok session => (Ok (Some session), w)
   | Throw e => (Throw e, w)
   end)
  \/
  (access_valid w tc (refresh_margin config) = false /\
   truthy_str (tc_refreshToken tc) = true /\ refresh_known_expired w tc = false /\
   getSession P config w =
   try_catch (refreshed_session P config prefix (nullish (tc_refreshToken tc) ""))
     (fun _ => mret None) w).
Proof.
  intros prefix tc. rewrite getSession_eq. fold prefix tc.
  destruct (access_valid w tc (refresh_margin config)) eqn:Hvalid.
  - right. left. split; [done|].
    assert (truthy_str (tc_accessToken tc) = true) as ->; [|done].
    unfold access_valid in Hvalid. by apply andb_prop in Hvalid as [? _].
  - destruct (negb _ && negb _); [by left|].
    rewrite try_refresh_eq.
    destruct (truthy_str (tc_refreshToken tc)); [|by left].
    destruct (refresh_known_expired w tc); [by left|].
    right. right. done.
Qed.




End SessionRuns.

Section SessionWitnesses.
Import Sample.




End SessionWitnesses.


(** ** The callback handler, continued *)

Section CallbackRuns.
Context (P : Platform).

(** The try block of the callback handler and its catch. *)
Lemma callback_exchange_eq config prefix baseUrl code redirectUri pkce w :
  try_catch
    (exchange_and_store P config prefix baseUrl code redirectUri pkce)
    (fun err =>
       console_error "[keycloak-lib] Token exchange failed:" err;;
       mret (Json {[ "error" := JStr "Token exchange failed";
                     "message" := JStr (err_message err) ]} 500)) w =
  match exchangeCodeForTokens P config code (nullish (pk_codeVerifier pkce) "") redirectUri w with
  | (Throw e, w1) =>
      (Ok (Json {[ "error" := JStr "Token exchange failed";
                   "message" := JStr (err_message e) ]} 500),
       logged ("[keycloak-lib] Token exchange failed:", e) w1)
  | (Ok tokens, w1) =>
      match newURL P (nullish (pk_returnTo pkce) "/") baseUrl with
      | Ok target =>
          (Ok (Redirect target),
           set_cookieStore (without_pkce prefix)
             (set_cookieStore (with_tokens (production w1) tokens prefix) w1))
      | Throw e =>
          (Ok (Json {[ "error" := JStr "Token exchange failed";
                       "message" := JStr (err_message e) ]} 500),
           logged ("[keycloak-lib] Token exchange failed:", e)
             (set_cookieStore (without_pkce prefix)
                (set_cookieStore (with_tokens (production w1) tokens prefix) w1)))
      end
  end.
Proof.
  unfold try_catch, exchange_and_store. rewrite bind_run.
  destruct (exchangeCodeForTokens _ _ _ _ _ _) as [[tokens|e] w1]; [|done].
  rewrite bind_run, setTokenCookies_eq, bind_run, clearPKCECookies_eq, bind_run.
  unfold lift. by destruct (newURL P _ _).
Qed.

(** A callback with a (non-empty) [error] parameter is answered by a
    redirect to "/auth/error" on the origin of the request, with the error
    and, when there is one, its description in the query; the code and the
    state are not looked at and the world is left as it was.  The handler
    throws when the address cannot be built. *)
Theorem callbackHandler_error_redirect (config : KeycloakConfig) (request : NextRequest)
    (w : World) (error : string) :
  searchParams_get "error" (searchParams request) = Some error ->
  error <> "" ->
  match newURL P "/auth/error" (origin request) with
  | Ok errorUrl =>
      exists target : Url,
        callbackHandler P config request w = (Ok (Redirect target), w) /\
        href target = href errorUrl /\
        searchParams_get "error" (query target) = Some error /\
        forall description : string,
          searchParams_get "error_description" (searchParams request) = Some description ->
          description <> "" ->
          searchParams_get "description" (query target) = Some description
  | Throw e => callbackHandler P config request w = (Throw e, w)
  end.
Proof.
  intros Herror Hne. unfold callbackHandler. rewrite Herror.
  assert (truthy_str (Some error) = true) as -> by by destruct error.
  rewrite bind_run. unfold lift. cbn [nullish].
  destruct (newURL P "/auth/error" (origin request)) as [errorUrl|e]; [|done].
  eexists. split; [reflexivity|].
  destruct (searchParams_get "error_description" (searchParams request)) as [[|c d]|];
    cbn [truthy_str nullish url_set href query].
  - split; [done|]. split; [apply searchParams_get_set_eq|]. by intros ? [= <-].
  - split; [done|]. split.
    + rewrite searchParams_get_set_ne by done. apply searchParams_get_set_eq.
    + intros ? [= <-] _. apply searchParams_get_set_eq.
  - split; [done|]. split; [apply searchParams_get_set_eq | done].
Qed.

(** A callback without an [error] parameter never makes the handler throw.
    Either it is answered 400 or 403 and the world is left as it was, or the
    code-for-tokens exchange has run, a request has been sent, and the
    answer is a redirect or the 500 of the catch block. *)
Theorem callbackHandler_answers (config : KeycloakConfig) (request : NextRequest)
    (w : World) :
  truthy_str (searchParams_get "error" (searchParams request)) = false ->
  exists (response : NextResponse) (w' : World),
    callbackHandler P config request w = (Ok response, w') /\
    ((w' = w /\ (status_of response = Some 400 \/ status_of response = Some 403)) \/
     (netlog w' <> netlog w /\
      (status_of response = None \/ status_of response = Some 500))).
Proof.
  intros Herror.
  destruct (truthy_str (searchParams_get "code" (searchParams request))) eqn:Hcode.
  - rewrite callbackHandler_checked by done.
    destruct (negb _ || negb _ || negb _); [eexists _, _; split; [done|]; left; auto|].
    destruct (negb _); [eexists _, _; split; [done|]; left; auto|].
    rewrite callback_exchange_eq.
    destruct (exchangeCodeForTokens _ _ _ _ _ _) as [[tokens|e] w1] eqn:Hrun;
      apply exchangeCodeForTokens_run in Hrun as (_ & _ & Hlog);
      assert (Hsent : netlog w1 <> netlog w) by (intros Heq; rewrite Heq in Hlog; lia).
    + destruct (newURL P _ _); eexists _, _; (split; [done|]); right; split; auto.
    + eexists _, _. split; [done|]. right. split; auto.
  - rewrite callbackHandler_missing_code by done. eexists _, _. split; [done|]. left. auto.
Qed.


End CallbackRuns.

Section CallbackWitnesses.
Import Sample.

Lemma callbackHandler_error_redirect_witness :
  exists target : Url,
    callbackHandler Fixture.provider config
      (callback [("error", "access_denied"); ("code", "c"); ("state", "s")]) pending
    = (Ok (Redirect target), pending) /\
    href target = "https://app.test/auth/error" /\
    searchParams_get "error" (query target) = Some "access_denied".
Proof.
  destruct (callbackHandler_error_redirect Fixture.provider config
              (callback [("error", "access_denied"); ("code", "c"); ("state", "s")]) pending
              "access_denied") as (target & Hrun & Hhref & Hquery & _);
    [reflexivity | discriminate |].
  exists target. split; [exact Hrun|]. split; [exact Hhref | exact Hquery].
Defined.

Lemma callbackHandler_answers_witness :
  exists (response : NextResponse) (w' : World),
    callbackHandler (platform refusing) config (callback [("code", "c"); ("state", "s")])
      pending = (Ok response, w') /\
    status_of response = Some 500.
Proof.
  destruct (callbackHandler_answers (platform refusing) config
              (callback [("code", "c"); ("state", "s")]) pending)
    as (response & w' & Hrun & Hcases); [reflexivity|].
  exists response, w'. split; [exact Hrun|].
  vm_compute in Hrun. by injection Hrun as <- _.
Defined.


End CallbackWitnesses.


(** ** The login handler *)

Section LoginRuns.
Context (P : Platform) (H : Host).

Lemma generatePKCEPair_eq :
  generatePKCEPair H = Ok (login_verifier H, generateCodeChallenge H (login_verifier H)).
Proof.
  unfold generatePKCEPair, Pkce.generateCodeVerifier. cbn [nullish].
  by rewrite PkceText.getRandomValues_small by lia.
Qed.

Lemma generateState_eq : Pkce.generateState (random_state H) = Ok (login_state H).
Proof. unfold Pkce.generateState. by rewrite PkceText.getRandomValues_small by lia. Qed.

(** The address that the login handler redirects to. *)
Lemma loginHandler_eq config request w :
  loginHandler P H config request w =
  match discoverEndpoints P (url config) (realm config) w with
  | (Throw e, w1) => (Throw e, w1)
  | (Ok endpoints, w1) =>
      let returnTo := nullish (searchParams_get "returnTo" (searchParams request)) "/" in
      let w2 := set_cookieStore
                  (with_pkce (production w1) (login_verifier H) (login_state H) returnTo
                     (cookie_prefix config)) w1 in
      match parseURL H (js_String_val (authorization_endpoint endpoints)) with
      | Throw e => (Throw e, w2)
      | Ok authUrl =>
          (Ok (Redirect
                 (url_set "code_challenge_method" "S256"
                 (url_set "code_challenge" (generateCodeChallenge H (login_verifier H))
                 (url_set "state" (login_state H)
                 (url_set "scope" (join " " (login_scopes config))
                 (url_set "redirect_uri" (callback_redirectUri config request)
                 (url_set "response_type" "code"
                 (url_set "client_id" (clientId config) authUrl)))))))), w2)
      end
  end.
Proof.
  unfold loginHandler. rewrite bind_run.
  destruct (discoverEndpoints P (url config) (realm config) w) as [[endpoints|e] w1]; [|done].
  rewrite bind_run, generatePKCEPair_eq. unfold lift at 1.
  rewrite bind_run, generateState_eq. unfold lift at 1.
  rewrite bind_run, setPKCECookies_eq, bind_run. unfold lift. cbv zeta. cbn [fst snd].
  fold (cookie_prefix config) (callback_redirectUri config request) (login_scopes config).
  by destruct (parseURL H _).
Qed.

Lemma login_state_length : String.length (login_state H) = 43%nat.
Proof. unfold login_state. by rewrite PkceFacts.base64UrlEncode_length, length_map, length_seq. Qed.

Lemma login_verifier_length : String.length (login_verifier H) = 86%nat.
Proof.
  unfold login_verifier. by rewrite PkceFacts.base64UrlEncode_length, length_map, length_seq.
Qed.

Lemma exchangeCodeForTokens_netlog config code codeVerifier redirectUri w endpoints w1 :
  discoverEndpoints P (url config) (realm config) w = (Ok endpoints, w1) ->
  netlog (exchangeCodeForTokens P config code codeVerifier redirectUri w).2
  = netlog w1 ++ [token_request endpoints (exchange_body config code codeVerifier redirectUri)].
Proof.
  intros Hdiscover. rewrite exchangeCodeForTokens_eq, Hdiscover. cbv zeta.
  destruct (reply _) as [e|response]; [done|].
  destruct (ok response); [|done]. by destruct (body_json response).
Qed.

Lemma callback_exchange_netlog config prefix baseUrl code redirectUri pkce w :
  netlog (try_catch
            (exchange_and_store P config prefix baseUrl code redirectUri pkce)
            (fun err =>
               console_error "[keycloak-lib] Token exchange failed:" err;;
               mret (Json {[ "error" := JStr "Token exchange failed";
                             "message" := JStr (err_message err) ]} 500)) w).2
  = netlog (exchangeCodeForTokens P config code (nullish (pk_codeVerifier pkce) "")
              redirectUri w).2.
Proof.
  rewrite callback_exchange_eq.
  destruct (exchangeCodeForTokens _ _ _ _ _ _) as [[tokens|e] w1]; [|done].
  by destruct (newURL P _ _).
Qed.

(** A login that finds the endpoints and an authorization endpoint that is
    an address answers with a redirect to that address.  Its query asks for
    the code flow with the client id, the redirect URI that the callback
    will use, the default and the configured scopes, each once, the state,
    and the S256 challenge of the verifier; the verifier itself, the state
    and the return address are in the PKCE cookies. *)
Theorem loginHandler_redirect (config : KeycloakConfig) (request : NextRequest)
    (w w1 : World) (endpoints : OIDCEndpoints) (authUrl : Url) :
  discoverEndpoints P (url config) (realm config) w = (Ok endpoints, w1) ->
  parseURL H (js_String_val (authorization_endpoint endpoints)) = Ok authUrl ->
  exists (target : Url) (w' : World),
    loginHandler P H config request w = (Ok (Redirect target), w') /\
    href target = href authUrl /\
    searchParams_get "client_id" (query target) = Some (clientId config) /\
    searchParams_get "response_type" (query target) = Some "code" /\
    searchParams_get "redirect_uri" (query target)
      = Some (callback_redirectUri config request) /\
    searchParams_get "scope" (query target) = Some (join " " (login_scopes config)) /\
    searchParams_get "state" (query target) = Some (login_state H) /\
    searchParams_get "code_challenge" (query target)
      = Some (generateCodeChallenge H (login_verifier H)) /\
    searchParams_get "code_challenge_method" (query target) = Some "S256" /\
    getPKCECookies (cookie_prefix config) w'
      = (Ok {| pk_codeVerifier := Some (login_verifier H);
               pk_state := Some (login_state H);
               pk_returnTo :=
                 Some (nullish (searchParams_get "returnTo" (searchParams request)) "/") |},
         w') /\
    NoDup (login_scopes config) /\
    (forall scope : string,
       scope ∈ login_scopes config <->
       scope ∈ ["openid"; "profile"; "email"] \/ scope ∈ nullish (scopes config) []).
Proof.
  intros Hdiscover Hparse. rewrite loginHandler_eq, Hdiscover. cbv zeta. rewrite Hparse.
  eexists _, _. split; [reflexivity|].
  rewrite getPKCECookies_eq. cbn [cookieStore set_cookieStore].
  rewrite stored_pkce_with_pkce. cbn [url_set href query].
  split; [done|].
  split; [do 6 (rewrite searchParams_get_set_ne by done); apply searchParams_get_set_eq|].
  split; [do 5 (rewrite searchParams_get_set_ne by done); apply searchParams_get_set_eq|].
  split; [do 4 (rewrite searchParams_get_set_ne by done); apply searchParams_get_set_eq|].
  split; [do 3 (rewrite searchParams_get_set_ne by done); apply searchParams_get_set_eq|].
  split; [do 2 (rewrite searchParams_get_set_ne by done); apply searchParams_get_set_eq|].
  split; [do 1 (rewrite searchParams_get_set_ne by done); apply searchParams_get_set_eq|].
  split; [apply searchParams_get_set_eq|].
  split; [done|].
  destruct (unique_spec (["openid"; "profile"; "email"] ++ nullish (scopes config) []))
    as [Hnd Hmem].
  split; [exact Hnd|]. intros scope. unfold login_scopes. by rewrite Hmem, elem_of_app.
Qed.

(** A login whose discovery throws, throws the same error and sets no
    cookie.  A login whose authorization endpoint is not an address throws
    too, but only after the PKCE cookies have been written. *)
Theorem loginHandler_failure (config : KeycloakConfig) (request : NextRequest) (w : World) :
  match discoverEndpoints P (url config) (realm config) w with
  | (Throw e, w1) =>
      loginHandler P H config request w = (Throw e, w1) /\ cookieStore w1 = cookieStore w
  | (Ok endpoints, w1) =>
      forall e : JsError,
        parseURL H (js_String_val (authorization_endpoint endpoints)) = Throw e ->
        exists w' : World,
          loginHandler P H config request w = (Throw e, w') /\
          pk_codeVerifier (stored_pkce (cookie_prefix config) (cookieStore w'))
            = Some (login_verifier H) /\
          pk_state (stored_pkce (cookie_prefix config) (cookieStore w'))
            = Some (login_state H)
  end.
Proof.
  rewrite loginHandler_eq.
  destruct (discoverEndpoints P (url config) (realm config) w) as [[endpoints|e] w1] eqn:Hrun.
  - intros e Hparse. cbv zeta. rewrite Hparse. eexists. split; [reflexivity|].
    cbn [cookieStore set_cookieStore]. by rewrite stored_pkce_with_pkce.
  - split; [done|]. by apply discoverEndpoints_run in Hrun as (? & _).
Qed.

(** The login and the callback fit together.  After a login has answered
    with its redirect, a callback that carries a code is accepted exactly
    with the state of that redirect: with any other state it is answered by
    the 403 of the CSRF check and nothing changes; with that state the
    exchange runs, and the token request that it sends holds the verifier
    whose S256 challenge the redirect carried, and the redirect URI of the
    callback. *)
Theorem login_then_callback (config : KeycloakConfig) (request back : NextRequest)
    (w w1 : World) (target : Url) (code : string) :
  loginHandler P H config request w = (Ok (Redirect target), w1) ->
  truthy_str (searchParams_get "error" (searchParams back)) = false ->
  searchParams_get "code" (searchParams back) = Some code ->
  code <> "" ->
  exists state : string,
    searchParams_get "state" (query target) = Some state /\
    String.length state = 43%nat /\
    searchParams_get "code_challenge" (query target)
      = Some (generateCodeChallenge H (login_verifier H)) /\
    (searchParams_get "state" (searchParams back) <> Some state ->
     callbackHandler P config back w1 = (Ok csrf_rejection, w1)) /\
    (searchParams_get "state" (searchParams back) = Some state ->
     netlog (callbackHandler P config back w1).2 <> netlog w1 /\
     forall (endpoints : OIDCEndpoints) (w2 : World),
       discoverEndpoints P (url config) (realm config) w1 = (Ok endpoints, w2) ->
       netlog (callbackHandler P config back w1).2
       = netlog w2 ++
         [token_request endpoints
            (exchange_body config code (login_verifier H) (callback_redirectUri config back))]).
Proof.
  intros Hlogin Herror Hcode Hcne. rewrite loginHandler_eq in Hlogin.
  destruct (discoverEndpoints P (url config) (realm config) w) as [[endpoints|e] w0];
    [|done].
  cbv zeta in Hlogin. destruct (parseURL H _) as [authUrl|]; [|done].
  injection Hlogin as <- <-.
  exists (login_state H). cbn [url_set href query].
  split; [do 2 (rewrite searchParams_get_set_ne by done); apply searchParams_get_set_eq|].
  split; [apply login_state_length|].
  split; [do 1 (rewrite searchParams_get_set_ne by done); apply searchParams_get_set_eq|].
  assert (Hstate : truthy_str (Some (login_state H)) = true).
  { pose proof login_state_length. by destruct (login_state H). }
  assert (Hverifier : truthy_str (Some (login_verifier H)) = true).
  { pose proof login_verifier_length. by destruct (login_verifier H). }
  rewrite callbackHandler_checked by (rewrite ?Hcode; by destruct code).
  cbn [cookieStore set_cookieStore]. rewrite stored_pkce_with_pkce.
  cbn [pk_state pk_codeVerifier]. rewrite Hstate, Hverifier, Hcode. cbn [negb orb nullish].
  split.
  - intros Hother. destruct (searchParams_get "state" (searchParams back)) as [s|].
    + rewrite bool_decide_eq_false_2 by done. by rewrite orb_true_r.
    + done.
  - intros ->. rewrite Hstate, bool_decide_eq_true_2 by done. cbn [negb orb].
    rewrite callback_exchange_netlog. cbn [pk_codeVerifier nullish]. split.
    + apply exchangeCodeForTokens_sends.
    + intros endpoints' w2 Hdiscover. by apply exchangeCodeForTokens_netlog.
Qed.

End LoginRuns.

(** ** The logout handler *)

Section LogoutRuns.
Context (P : Platform) (H : Host).

Lemma logoutHandler_eq config request w :
  logoutHandler P H config request w =
  try_catch
    (provider_logout P H config (logout_target config request)
       (tc_idToken (stored_tokens (cookie_prefix config) (cookieStore w))))
    (fun _ => redirect_to H (logout_target config request))
    (signed_out config w).
Proof.
  unfold logoutHandler. by rewrite bind_run, getTokenCookies_eq, bind_run, clearTokenCookies_eq.
Qed.

Lemma logout_try_eq config target idToken w0 :
  try_catch (provider_logout P H config target idToken) (fun _ => redirect_to H target) w0 =
  match discoverEndpoints P (url config) (realm config) w0 with
  | (Ok endpoints, w1) =>
      match parseURL H (js_String_val (end_session_endpoint endpoints)) with
      | Ok logoutUrl =>
          let logoutUrl := url_set "client_id" (clientId config)
                             (url_set "post_logout_redirect_uri" target logoutUrl) in
          (Ok (Redirect (if truthy_str idToken
                         then url_set "id_token_hint" (nullish idToken "") logoutUrl
                         else logoutUrl)), w1)
      | Throw _ =>
          match parseURL H target with
          | Ok location => (Ok (Redirect location), w1)
          | Throw e => (Throw e, w1)
          end
      end
  | (Throw _, w1) =>
      match parseURL H target with
      | Ok location => (Ok (Redirect location), w1)
      | Throw e => (Throw e, w1)
      end
  end.
Proof.
  unfold try_catch, provider_logout, redirect_to. rewrite bind_run.
  destruct (discoverEndpoints P (url config) (realm config) w0) as [[endpoints|e] w1].
  - rewrite bind_run. unfold lift at 1.
    destruct (parseURL H (js_String_val (end_session_endpoint endpoints))); [done|].
    rewrite bind_run. unfold lift. by destruct (parseURL H target).
  - rewrite bind_run. unfold lift. by destruct (parseURL H target).
Qed.


(** Where the logout handler sends the browser.  When the endpoints are
    found and the end-session endpoint is an address, to that address, with
    the return address and the client id in the query and the stored id
    token as [id_token_hint] exactly when one was stored and not empty.
    Otherwise to the return address itself, and then the handler throws
    when that is not an address that [NextResponse.redirect] accepts. *)
Theorem logoutHandler_redirect (config : KeycloakConfig) (request : NextRequest) (w : World) :
  let target := logout_target config request in
  let idToken := tc_idToken (stored_tokens (cookie_prefix config) (cookieStore w)) in
  let fallback (w1 : World) :=
    match parseURL H target with
    | Ok location => logoutHandler P H config request w = (Ok (Redirect location), w1)
    | Throw e => logoutHandler P H config request w = (Throw e, w1)
    end in
  match discoverEndpoints P (url config) (realm config) (signed_out config w) with
  | (Ok endpoints, w1) =>
      match parseURL H (js_String_val (end_session_endpoint endpoints)) with
      | Ok logoutUrl =>
          exists location : Url,
            logoutHandler P H config request w = (Ok (Redirect location), w1) /\
            href location = href logoutUrl /\
            searchParams_get "post_logout_redirect_uri" (query location) = Some target /\
            searchParams_get "client_id" (query location) = Some (clientId config) /\
            searchParams_get "id_token_hint" (query location) =
              if truthy_str idToken then idToken
              else searchParams_get "id_token_hint" (query logoutUrl)
      | Throw _ => fallback w1
      end
  | (Throw _, w1) => fallback w1
  end.
Proof.
  cbv zeta. rewrite logoutHandler_eq, logout_try_eq.
  destruct (discoverEndpoints _ _ _ _) as [[endpoints|e] w1].
  - destruct (parseURL H (js_String_val (end_session_endpoint endpoints))) as [logoutUrl|].
    + eexists. split; [reflexivity|]. cbv zeta.
      destruct (tc_idToken _) as [[|c s]|]; cbn [truthy_str nullish url_set href query].
      * split; [done|].
        split; [rewrite searchParams_get_set_ne by done; apply searchParams_get_set_eq|].
        split; [apply searchParams_get_set_eq|].
        by rewrite !searchParams_get_set_ne by done.
      * split; [done|].
        split; [rewrite !searchParams_get_set_ne by done; apply searchParams_get_set_eq|].
        split; [rewrite searchParams_get_set_ne by done; apply searchParams_get_set_eq|].
        apply searchParams_get_set_eq.
      * split; [done|].
        split; [rewrite searchParams_get_set_ne by done; apply searchParams_get_set_eq|].
        split; [apply searchParams_get_set_eq|].
        by rewrite !searchParams_get_set_ne by done.
    + by destruct (parseURL H _).
  - by destruct (parseURL H _).
Qed.

End LogoutRuns.

(** ** The session route and the dispatcher *)

Section Routes.
Context (P : Platform) (H : Host).

(** The session route never throws and always answers 200.  The body says
    [authenticated] exactly when [getSession] returned a session, and then
    holds the access token of the session next to the user, and neither the
    refresh token nor the id token; an error of [getSession] is logged and
    answered as not authenticated. *)
Theorem sessionHandler_answers (config : KeycloakConfig) (w : World) :
  exists (body : gmap string json) (w' : World),
    sessionHandler P config w = (Ok (Json body 200), w') /\
    body !! "refreshToken" = None /\ body !! "idToken" = None /\
    match getSession P config w with
    | (Ok (Some session), w1) =>
        w' = w1 /\ body !! "authenticated" = Some (JBool true) /\
        body !! "accessToken" = Some (JStr (accessToken session)) /\
        body !! "user" = Some (user_json (user session))
    | (Ok None, w1) =>
        w' = w1 /\ body = {[ "authenticated" := JBool false; "user" := JNull ]}
    | (Throw e, w1) =>
        w' = logged ("[keycloak-lib] Session check failed:", e) w1 /\
        body !! "authenticated" = Some (JBool false) /\
        body !! "error" = Some (JStr "Session check failed")
    end.
Proof.
  unfold sessionHandler, try_catch. rewrite bind_run.
  destruct (getSession P config w) as [[[session|]|e] w1]; eexists _, _;
    (split; [reflexivity|]); repeat split; reflexivity.
Qed.

(** The dispatcher looks at the first segment of the route only.  A route
    that is missing, or whose first segment is none of the four names, is
    answered 404 with the list of the four routes under the base path, and
    the world is left as it was. *)
Theorem GET_not_found (config : KeycloakConfig) (auth : option (list string))
    (request : NextRequest) (w : World) :
  auth ≫= head ∉ [Some "login"; Some "callback"; Some "logout"; Some "session"] ->
  GET P H config auth request w = (Ok (not_found config), w) /\
  status_of (not_found config) = Some 404 /\
  forall (route : string) (rest : list string),
    GET P H config (Some (route :: rest)) request w = GET P H config (Some [route]) request w.
Proof.
  intros Hroute. split; [|done]. unfold GET.
  destruct (auth ≫= head) as [route|]; [|done].
  rewrite !not_elem_of_cons in Hroute. destruct Hroute as (H1 & H2 & H3 & H4 & _).
  destruct (String.eqb_spec route "login") as [->|_]; [done|].
  destruct (String.eqb_spec route "callback") as [->|_]; [done|].
  destruct (String.eqb_spec route "logout") as [->|_]; [done|].
  destruct (String.eqb_spec route "session") as [->|_]; [done|].
  done.
Qed.

End Routes.

Section HandlerWitnesses.
Import Sample.

Lemma loginHandler_redirect_witness :
  exists (target : Url) (w' : World),
    loginHandler Fixture.provider Fixture.host config Fixture.login_request (world [])
      = (Ok (Redirect target), w') /\
    href target = "https://idp.test/realms/demo/auth" /\
    searchParams_get "response_type" (query target) = Some "code" /\
    searchParams_get "scope" (query target) = Some "openid profile email" /\
    searchParams_get "redirect_uri" (query target) = Some "https://app.test/api/auth/callback".
Proof.
  destruct (discoverEndpoints Fixture.provider "https://idp.test" "demo" (world []))
    as [[endpoints|e] w1] eqn:Hdiscover; [|vm_compute in Hdiscover; discriminate].
  destruct (loginHandler_redirect Fixture.provider Fixture.host config Fixture.login_request
              (world []) w1 endpoints
              {| href := "https://idp.test/realms/demo/auth"; query := [] |})
    as (target & w' & Hrun & Hhref & _ & Htype & Huri & Hscope & _).
  - exact Hdiscover.
  - vm_compute in Hdiscover. injection Hdiscover as <- _. reflexivity.
  - exists target, w'. repeat split; assumption.
Defined.

Lemma login_then_callback_witness :
  callbackHandler Fixture.provider config (callback [("code", "c"); ("state", "forged")])
    Fixture.after_login
  = (Ok csrf_rejection, Fixture.after_login).
Proof.
  destruct (loginHandler Fixture.provider Fixture.host config Fixture.login_request (world []))
    as [[[target|body code]|e] w1] eqn:Hlogin; try (vm_compute in Hlogin; discriminate).
  assert (w1 = Fixture.after_login) as -> by (unfold Fixture.after_login; by rewrite Hlogin).
  destruct (login_then_callback Fixture.provider Fixture.host config Fixture.login_request
              (callback [("code", "c"); ("state", "forged")]) (world []) Fixture.after_login
              target "c" Hlogin)
    as (state & _ & Hlength & _ & Hreject & _); [reflexivity | reflexivity | discriminate |].
  apply Hreject. intros [= <-]. vm_compute in Hlength. discriminate.
Defined.

Lemma GET_not_found_witness :
  GET Fixture.provider Fixture.host config (Some ["profile"; "edit"]) Fixture.login_request
    (world [])
  = (Ok (not_found config), world []).
Proof.
  apply (GET_not_found Fixture.provider Fixture.host config (Some ["profile"; "edit"])
           Fixture.login_request (world [])).
  intros Hin. repeat (apply elem_of_cons in Hin as [Hin|Hin]; [discriminate|]).
  by apply elem_of_nil in Hin.
Defined.

End HandlerWitnesses.


(** ** An empty id-token cookie *)

Section EmptyIdToken.
Context (P : Platform).

(** An id-token cookie that is stored but empty is not replaced by the
    access token: with a live access token, [getSession] hands the empty
    string to [decodeJwt], and when that throws, as it does for a string
    that is no JWT, [getSession] throws the same error instead of building
    the session from the access token. *)
Theorem getSession_empty_id_token (config : KeycloakConfig) (w : World) (e : JsError) :
  let tc := stored_tokens (cookie_prefix config) (cookieStore w) in
  access_valid w tc (refresh_margin config) = true ->
  tc_idToken tc = Some "" ->
  decodeToken P "" = Throw e ->
  getSession P config w = (Throw e, w) /\
  forall access : string, nullish (tc_idToken tc) access = "".
Proof.
  intros tc Hvalid Hid Hdecode. split; [|by rewrite Hid].
  destruct (getSession_cases P config w) as [[_ Hno] | [[_ ->] | (Hno & _)]].
  - fold tc in Hno. congruence.
  - fold tc. rewrite Hid. unfold buildSession. cbn [nullish]. by rewrite Hdecode.
  - fold tc in Hno. congruence.
Qed.

End EmptyIdToken.

(** ** Further runs on the sample worlds *)

Section MoreRuns.
Import Sample.

Lemma getSession_empty_id_token_witness :
  getSession Fixture.provider config
    (world [("kc_at", "access.jwt"); ("kc_id", ""); ("kc_exp", "1800000000")])
  = (Throw (mkError "JWTInvalid" "Invalid JWT"),
     world [("kc_at", "access.jwt"); ("kc_id", ""); ("kc_exp", "1800000000")]).
Proof.
  apply (getSession_empty_id_token Fixture.provider config
           (world [("kc_at", "access.jwt"); ("kc_id", ""); ("kc_exp", "1800000000")])
           (mkError "JWTInvalid" "Invalid JWT")); reflexivity.
Defined.

Lemma generateCodeChallenge_s256_witness :
  String.length (generateCodeChallenge Fixture.host "verifier") = 43%nat /\
  base64UrlDecode (generateCodeChallenge Fixture.host "verifier")
    = Fixture.digest (utf8 "verifier").
Proof.
  destruct (PkceText.generateCodeChallenge_s256 Fixture.host "verifier") as (Hlen & _ & Hback);
    [reflexivity|].
  split; [exact Hlen | exact Hback].
Defined.

Lemma discoverEndpoints_cache_ttl_witness :
  exists endpoints : OIDCEndpoints,
    discoverEndpoints Fixture.provider "https://idp.test" "demo" Fixture.discovered
      = (Ok endpoints, Fixture.discovered) /\
    netlog Fixture.discovered = [discovery_request "https://idp.test" "demo"].
Proof.
  destruct (discoverEndpoints Fixture.provider "https://idp.test" "demo" (world []))
    as [[endpoints|e] w1] eqn:Hrun; [|vm_compute in Hrun; discriminate].
  assert (w1 = Fixture.discovered) as -> by (unfold Fixture.discovered; by rewrite Hrun).
  destruct (discoverEndpoints_cache_ttl Fixture.provider "https://idp.test" "demo" (world [])
              Fixture.discovered Fixture.discovered endpoints) as (Hsent & Hhit & _);
    [exact I | exact Hrun | reflexivity |].
  exists endpoints. split; [apply Hhit; lia | exact Hsent].
Defined.

Lemma discoverEndpoints_valid_witness :
  cache_valid Fixture.discovered /\
  is_Some (cache Fixture.discovered !! "https://idp.test:demo").
Proof.
  split; [|vm_compute; eauto].
  destruct (discoverEndpoints_valid Fixture.provider "https://idp.test" "demo" (world [])
              Fixture.discovered
              (discoverEndpoints Fixture.provider "https://idp.test" "demo" (world [])).1)
    as [Hvalid _].
  - intros key entry Hentry. simpl in Hentry. by rewrite lookup_empty in Hentry.
  - unfold Fixture.discovered.
    by destruct (discoverEndpoints Fixture.provider "https://idp.test" "demo" (world [])).
  - exact Hvalid.
Defined.

(** A confidential client sends its secret with the code. *)
Example exchangeCodeForTokens_secret_run :
  exists w' : World,
    exchangeCodeForTokens Fixture.provider Fixture.confidential "c" "v"
      "https://app.test/api/auth/callback" Fixture.discovered = (Ok Fixture.tokens, w') /\
    last (netlog w') =
      Some {| fr_input := Some (JStr "https://idp.test/realms/demo/token");
              fr_init := post_form
                [ ("grant_type", "authorization_code"); ("client_id", "app"); ("code", "c");
                  ("redirect_uri", "https://app.test/api/auth/callback");
                  ("code_verifier", "v"); ("client_secret", "s3cret") ] |} /\
    length (netlog w') = 2%nat.
Proof. eexists. split; [vm_compute; reflexivity|]. split; reflexivity. Qed.

(** Refreshed tokens that do not decode: null, with the new tokens in the
    cookies. *)
Example getSession_opaque_tokens_run :
  exists w' : World,
    getSession Fixture.opaque_tokens config refreshable = (Ok None, w') /\
    c_value <$> cookieStore w' !! "kc_exp" = Some "1700000300" /\
    console w' = [].
Proof. eexists. split; [vm_compute; reflexivity|]. split; reflexivity. Qed.

(** A logout with a stored id token, and a logout while the provider is out
    of reach and the return address is relative. *)
Example logoutHandler_run :
  exists w' : World,
    logoutHandler Fixture.provider Fixture.host config (callback []) signed_in
    = (Ok (Redirect {| href := "https://idp.test/realms/demo/logout";
                       query := [ ("post_logout_redirect_uri", "https://app.test");
                                  ("client_id", "app"); ("id_token_hint", "id.jwt") ] |}),
       w') /\
    cookieStore w' = ∅.
Proof. eexists. split; [vm_compute; reflexivity|]. reflexivity. Qed.

Example logoutHandler_relative_run :
  exists w' : World,
    logoutHandler (platform unreachable) Fixture.host config
      (callback [("returnTo", "/bye")]) signed_in
    = (Throw (mkError "TypeError" "Invalid URL"), w') /\
    cookieStore w' = ∅.
Proof. eexists. split; [vm_compute; reflexivity|]. reflexivity. Qed.

(** A login from the home page. *)
Example loginHandler_run :
  exists (target : Url) (w' : World),
    loginHandler Fixture.provider Fixture.host config Fixture.login_request (world [])
      = (Ok (Redirect target), w') /\
    searchParams_get "state" (query target)
      = Some "ZGVmZ2hpamtsbW5vcHFyc3R1dnd4eXp7fH1-f4CBgoM" /\
    c_value <$> cookieStore w' !! "kc_state"
      = Some "ZGVmZ2hpamtsbW5vcHFyc3R1dnd4eXp7fH1-f4CBgoM" /\
    c_value <$> cookieStore w' !! "kc_return" = Some "/home".
Proof. eexists _, _. split; [vm_compute; reflexivity|]. repeat split. Qed.

End MoreRuns.

